(** * mono-repo-test: the api and worker demo services

    A shallow embedding of the two HTTP services of the repository
    (src/svc/api/main.go, the worker's [Run] and [main] in
    src/pkg/shared/response.go, the earlier api of src/unnamed/part_001)
    together with the pieces of the Go standard library their handlers
    lean on: [os.Getenv]/[os.Environ], [strings.Cut], [sort.Strings],
    [encoding/json]'s decoder and the method-and-path routing of
    [http.ServeMux].

    Conventions.
    - The three atomics of a process ([ready], [forceFail], [inflight]) form
      the shared store [St]; goroutines and handlers are programs [Prog]
      over atomic operations, run either to completion ([run]) or
      interleaved in a pool ([step]).
    - What a handler obtains from outside the process is an input of the
      handler: the request, the clock reading used by [shared.JSON], the
      draw of [rand.Intn] and the outcome of the outgoing [client.Get].
    - Log lines are not modelled; neither is the indentation chosen with
      [SetIndent]: a response body is the value handed to the encoder. *)

From Stdlib Require Import ZArith List String Ascii Lia Bool DecimalString.
From stdpp Require Import base gmap strings list sorting.
Import ListNotations.

Set Warnings "-register-all".

Local Open Scope string_scope.
Local Open Scope list_scope.
Local Open Scope Z_scope.

(** ** encoding/json *)

Module json.

(** A decoded JSON document.  [JNumber m e] is the number [m * 10^e] that
    strconv reads from the text, before it is rounded to a float64: [m] is
    the digits of the literal and [e] its exponent less the number of
    digits after the point, where, as in strconv, the digits of an exponent
    that has reached 10000 are ignored.  A string keeps the characters
    between its quotes as written, escape sequences included; an object
    keeps its members in the order of the text. *)
Inductive value : Type :=
| JNull
| JBool (b : bool)
| JNumber (m e : Z)
| JString (s : string)
| JArray (elems : list value)
| JObject (members : list (string * value)).

(** The decoder is the scanner of encoding/json, one byte at a time, with
    its stack of open arrays and objects; the frames carry what has been
    decoded so far (most recent first). *)
Inductive frame : Type :=
| FArray (done : list value)
| FObjectKey (done : list (string * value))
| FObjectValue (done : list (string * value)) (key : string).

Inductive escape : Type :=
| EscNone
| EscBackslash
| EscU (remaining : nat).

Inductive numstate : Type :=
| NNeg | N0 | N1 | NDot | NDot0 | NE | NESign | NE0.

Record number : Type := Number {
  nstate : numstate;
  nneg : bool;
  nmant : Z;
  nfrac : Z;
  neneg : bool;
  nexp : Z
}.

Inductive mode : Type :=
| BeginValue
| BeginValueOrEmpty
| BeginStringOrEmpty
| BeginString
| Colon (key : string)
| AfterElement
| AfterMember
| EndTop (v : value)
| InString (iskey : bool) (acc : list ascii) (esc : escape)
| InLiteral (rest : list ascii) (v : value)
| InNumber (n : number).

Record scanner : Type := Scanner {
  smode : mode;
  parseState : list frame
}.

Definition maxNestingDepth : Z := 10000.

(** The double quote. *)
Definition quote : ascii := "034"%char.

Definition isSpace (c : ascii) : bool :=
  (c =? " ")%char || (c =? "009")%char || (c =? "013")%char || (c =? "010")%char.

Definition digit (c : ascii) : option Z :=
  let n := Z.of_N (N_of_ascii c) in
  if (48 <=? n) && (n <=? 57) then Some (n - 48) else None.

Definition isHex (c : ascii) : bool :=
  let n := Z.of_N (N_of_ascii c) in
  ((48 <=? n) && (n <=? 57)) || ((97 <=? n) && (n <=? 102)) || ((65 <=? n) && (n <=? 70)).

Definition numberValue (n : number) : value :=
  let m := if nneg n then - nmant n else nmant n in
  let e := if neneg n then - nexp n else nexp n in
  JNumber m (e - nfrac n).

Definition numberEnds (s : numstate) : bool :=
  match s with
  | N0 | N1 | NDot0 | NE0 => true
  | NNeg | NDot | NE | NESign => false
  end.

(** A value is complete: hand it to the enclosing array or object. *)
Definition endValue (v : value) (stack : list frame) : option scanner :=
  match stack with
  | [] => Some (Scanner (EndTop v) [])
  | FArray done :: rest => Some (Scanner AfterElement (FArray (v :: done) :: rest))
  | FObjectValue done key :: rest =>
      Some (Scanner AfterMember (FObjectKey ((key, v) :: done) :: rest))
  | FObjectKey _ :: _ => None
  end.

Definition pushParseState (f : frame) (m : mode) (stack : list frame) : option scanner :=
  if Z.of_nat (length stack) <? maxNestingDepth then Some (Scanner m (f :: stack)) else None.

Definition closeArray (stack : list frame) : option scanner :=
  match stack with
  | FArray done :: rest => endValue (JArray (rev done)) rest
  | _ => None
  end.

Definition closeObject (stack : list frame) : option scanner :=
  match stack with
  | FObjectKey done :: rest => endValue (JObject (rev done)) rest
  | _ => None
  end.

Definition beginValue (c : ascii) (stack : list frame) : option scanner :=
  if (c =? "{")%char then pushParseState (FObjectKey []) BeginStringOrEmpty stack
  else if (c =? "[")%char then pushParseState (FArray []) BeginValueOrEmpty stack
  else if Ascii.eqb c quote then Some (Scanner (InString false [] EscNone) stack)
  else if (c =? "-")%char then Some (Scanner (InNumber (Number NNeg true 0 0 false 0)) stack)
  else if (c =? "0")%char then Some (Scanner (InNumber (Number N0 false 0 0 false 0)) stack)
  else if (c =? "t")%char then Some (Scanner (InLiteral ["r"; "u"; "e"]%char (JBool true)) stack)
  else if (c =? "f")%char then Some (Scanner (InLiteral ["a"; "l"; "s"; "e"]%char (JBool false)) stack)
  else if (c =? "n")%char then Some (Scanner (InLiteral ["u"; "l"; "l"]%char JNull) stack)
  else match digit c with
       | Some d => Some (Scanner (InNumber (Number N1 false d 0 false 0)) stack)
       | None => None
       end.

Definition beginString (c : ascii) (stack : list frame) : option scanner :=
  if Ascii.eqb c quote then Some (Scanner (InString true [] EscNone) stack) else None.

Definition inString (iskey : bool) (acc : list ascii) (esc : escape) (c : ascii)
    (stack : list frame) : option scanner :=
  match esc with
  | EscNone =>
      if Ascii.eqb c quote then
        let s := string_of_list_ascii (rev acc) in
        if iskey then Some (Scanner (Colon s) stack) else endValue (JString s) stack
      else if (c =? "\")%char then Some (Scanner (InString iskey (c :: acc) EscBackslash) stack)
      else if (N_of_ascii c <? 32)%N then None
      else Some (Scanner (InString iskey (c :: acc) EscNone) stack)
  | EscBackslash =>
      if existsb (Ascii.eqb c) ["b"; "f"; "n"; "r"; "t"; "\"; "/"; quote]%char
      then Some (Scanner (InString iskey (c :: acc) EscNone) stack)
      else if (c =? "u")%char then Some (Scanner (InString iskey (c :: acc) (EscU 4)) stack)
      else None
  | EscU n =>
      if isHex c then
        match n with
        | S (S k) => Some (Scanner (InString iskey (c :: acc) (EscU (S k))) stack)
        | _ => Some (Scanner (InString iskey (c :: acc) EscNone) stack)
        end
      else None
  end.

(** One more byte of a number, or [None] when [c] does not continue it. *)
Definition inNumber (n : number) (c : ascii) : option number :=
  let isE := ((c =? "e") || (c =? "E"))%char in
  let '(Number st neg m f eneg ex) := n in
  match st, digit c with
  | NNeg, Some 0 => Some (Number N0 neg 0 f eneg ex)
  | NNeg, Some d => Some (Number N1 neg d f eneg ex)
  | N1, Some d => Some (Number N1 neg (10 * m + d) f eneg ex)
  | NDot, Some d | NDot0, Some d => Some (Number NDot0 neg (10 * m + d) (f + 1) eneg ex)
  | NE, Some d | NESign, Some d | NE0, Some d =>
      Some (Number NE0 neg m f eneg (if ex <? 10000 then 10 * ex + d else ex))
  | N0, None | N1, None =>
      if (c =? ".")%char then Some (Number NDot neg m f eneg ex)
      else if isE then Some (Number NE neg m f eneg ex) else None
  | NDot0, None => if isE then Some (Number NE neg m f eneg ex) else None
  | NE, None =>
      if (c =? "+")%char then Some (Number NESign neg m f false ex)
      else if (c =? "-")%char then Some (Number NESign neg m f true ex) else None
  | _, _ => None
  end.

Definition stepPlain (s : scanner) (c : ascii) : option scanner :=
  let stack := parseState s in
  match smode s with
  | BeginValue => if isSpace c then Some s else beginValue c stack
  | BeginValueOrEmpty =>
      if isSpace c then Some s
      else if (c =? "]")%char then closeArray stack else beginValue c stack
  | BeginStringOrEmpty =>
      if isSpace c then Some s
      else if (c =? "}")%char then closeObject stack else beginString c stack
  | BeginString => if isSpace c then Some s else beginString c stack
  | Colon key =>
      if isSpace c then Some s
      else if (c =? ":")%char then
        match stack with
        | FObjectKey done :: rest => Some (Scanner BeginValue (FObjectValue done key :: rest))
        | _ => None
        end
      else None
  | AfterElement =>
      if isSpace c then Some s
      else if (c =? ",")%char then Some (Scanner BeginValue stack)
      else if (c =? "]")%char then closeArray stack else None
  | AfterMember =>
      if isSpace c then Some s
      else if (c =? ",")%char then Some (Scanner BeginString stack)
      else if (c =? "}")%char then closeObject stack else None
  | EndTop _ => if isSpace c then Some s else None
  | InString iskey acc esc => inString iskey acc esc c stack
  | InLiteral rest v =>
      match rest with
      | [] => None
      | x :: rest' =>
          if (c =? x)%char then
            match rest' with
            | [] => endValue v stack
            | _ => Some (Scanner (InLiteral rest' v) stack)
            end
          else None
      end
  | InNumber _ => None
  end.

(** A number ends at the first byte that cannot continue it; that byte is
    then read in the state that follows the number. *)
Definition step (s : scanner) (c : ascii) : option scanner :=
  match smode s with
  | InNumber n =>
      match inNumber n c with
      | Some n' => Some (Scanner (InNumber n') (parseState s))
      | None =>
          if numberEnds (nstate n) then
            match endValue (numberValue n) (parseState s) with
            | Some s' => stepPlain s' c
            | None => None
            end
          else None
      end
  | _ => stepPlain s c
  end.

Fixpoint scan (s : scanner) (data : list ascii) : option scanner :=
  match data with
  | [] => Some s
  | c :: data' =>
      match step s c with
      | Some s' => scan s' data'
      | None => None
      end
  end.

(** End of input: the document must be complete. *)
Definition eof (s : scanner) : option value :=
  match smode s, parseState s with
  | EndTop v, [] => Some v
  | InNumber n, [] => if numberEnds (nstate n) then Some (numberValue n) else None
  | _, _ => None
  end.

Definition decode (data : string) : option value :=
  match scan (Scanner BeginValue []) (list_ascii_of_string data) with
  | Some s => eof s
  | None => None
  end.

(** [json.Valid]. *)
Definition Valid (data : string) : bool :=
  match decode data with Some _ => true | None => false end.

(** [strconv.ParseFloat] reports a range error for a literal that rounds
    beyond the largest float64: one whose magnitude is at least
    [2^1024 - 2^970], half an ulp above that largest value. *)
Definition float64Limit : Z := 2 ^ 1024 - 2 ^ 970.

Definition overflowsFloat64 (m e : Z) : bool :=
  if 0 <=? e then float64Limit <=? Z.abs m * 10 ^ e
  else float64Limit * 10 ^ (- e) <=? Z.abs m.

Fixpoint numbersFit (v : value) : bool :=
  match v with
  | JNumber m e => negb (overflowsFloat64 m e)
  | JArray elems => forallb numbersFit elems
  | JObject members => forallb (fun kv => numbersFit (snd kv)) members
  | JNull | JBool _ | JString _ => true
  end.

Inductive error : Type :=
| SyntaxError
| UnmarshalTypeError.

(** [json.Unmarshal(data, &parsed)] for [var parsed map[string]any]:
    [inl None] is the nil map left by the literal null, [inl (Some v)]
    the map decoded from the object [v]. *)
Definition Unmarshal (data : string) : option value + error :=
  match decode data with
  | None => inr SyntaxError
  | Some JNull => inl None
  | Some (JObject members) =>
      if numbersFit (JObject members) then inl (Some (JObject members))
      else inr UnmarshalTypeError
  | Some _ => inr UnmarshalTypeError
  end.

End json.


(** ** strings, sort, os *)

Module strings.

(** [strings.Cut(s, sep)] for a one-byte separator: the text before the
    first [sep], the text after it, and whether [sep] occurs at all. *)
Fixpoint Cut (s : string) (sep : ascii) : string * string * bool :=
  match s with
  | EmptyString => (EmptyString, EmptyString, false)
  | String c rest =>
      if Ascii.eqb c sep then (EmptyString, rest, true)
      else let '(before, after, found) := Cut rest sep in (String c before, after, found)
  end.

End strings.

Module sort.

Fixpoint insert (x : string) (l : list string) : list string :=
  match l with
  | [] => [x]
  | y :: l' => if String.leb x y then x :: l else y :: insert x l'
  end.

(** [sort.Strings]: ascending byte-wise order.  Equal strings cannot be told
    apart, so the result does not depend on the sorting algorithm. *)
Definition Strings (l : list string) : list string := fold_right insert [] l.

End sort.

Module os.

(** The environment of a process, as [os.Environ()] returns it: entries of
    the form key=value.  The services never change it. *)
Definition Environment : Type := list string.

(** [os.Getenv(key)]: the value of the first entry for [key], or the empty
    string when there is none. *)
Fixpoint Getenv (environ : Environment) (key : string) : string :=
  match environ with
  | [] => ""
  | e :: environ' =>
      let '(k, v, found) := strings.Cut e "=" in
      if found && String.eqb k key then v else Getenv environ' key
  end.

(** The signals the services ask to be notified of. *)
Inductive Signal : Type := SIGTERM | SIGINT | SIGQUIT | SIGKILL.

End os.

(** ** net/http: requests, responses *)

Module http.

Definition StatusOK : Z := 200.
Definition StatusUnauthorized : Z := 401.
Definition StatusNotFound : Z := 404.
Definition StatusMethodNotAllowed : Z := 405.
Definition StatusServiceUnavailable : Z := 503.

(** Header keys are in canonical form, as the server stores them. *)
Definition Header : Type := gmap string (list string).

Definition Header_Get (h : Header) (key : string) : string :=
  match h !! key with
  | Some (v :: _) => v
  | _ => ""
  end.

Record Request : Type := {
  Method : string;
  Path : string;
  Headers : Header;
  RequestBody : string
}.

(** Outcome of [client.Get(url)]: an error, or a response whose status
    code is all the services look at. *)
Inductive GetResult : Type :=
| GetError (err : string)
| GetResponse (StatusCode : Z).

End http.

(** ** pkg/shared *)

Module shared.

Record Response : Type := {
  Service : string;
  Status : string;
  Port : string;
  Timestamp : string;
  Message : string
}.

(** What a handler has written to its [http.ResponseWriter]. *)
Inductive Body : Type :=
| EncodeResponse (resp : Response)
| EncodeMap (m : gmap string json.value)
| PlainText (text : string).

Record Written : Type := {
  Code : Z;
  ContentType : string;
  Content : Body
}.

(** [shared.JSON(w, status, resp)]; [now] is
    [time.Now().UTC().Format(time.RFC3339)]. *)
Definition JSON (now : string) (status : Z) (resp : Response) : Written :=
  {| Code := status;
     ContentType := "application/json";
     Content := EncodeResponse {| Service := Service resp;
                                  Status := Status resp;
                                  Port := Port resp;
                                  Timestamp := now;
                                  Message := Message resp |} |}.

(** The members of the JSON object the encoder emits, by the struct tags
    of [Response] ([message] is omitted when empty) or by the keys of the
    encoded map. *)
Definition field (key : string) (b : Body) : option json.value :=
  match b with
  | EncodeResponse r =>
      if String.eqb key "service" then Some (json.JString (Service r))
      else if String.eqb key "status" then Some (json.JString (Status r))
      else if String.eqb key "port" then Some (json.JString (Port r))
      else if String.eqb key "timestamp" then Some (json.JString (Timestamp r))
      else if String.eqb key "message" && negb (String.eqb (Message r) "")
      then Some (json.JString (Message r))
      else None
  | EncodeMap m => m !! key
  | PlainText _ => None
  end.

End shared.

Module time.

(** [time.Duration] counts nanoseconds. *)
Definition Millisecond : Z := 1000000.
Definition Second : Z := 1000 * Millisecond.

End time.

Module fmt.

(** The verb [%d]. *)
Definition d (z : Z) : string := NilZero.string_of_int (Z.to_int z).

End fmt.

(** ** net/http: ServeMux *)

Module mux.

(** A pattern as the services write them: a method, a space and a path
    without wildcards.  A path that ends in a slash matches every path it
    is a prefix of, any other path matches itself only.  Request paths are
    taken in their cleaned form (the mux redirects the others). *)
Record pattern : Type := {
  pmethod : string;
  ppath : string
}.

Definition parsePattern (s : string) : pattern :=
  let '(method, rest, found) := strings.Cut s " " in
  if found then {| pmethod := method; ppath := rest |}
  else {| pmethod := ""; ppath := s |}.

Fixpoint endsInSlash (s : string) : bool :=
  match s with
  | EmptyString => false
  | String c EmptyString => Ascii.eqb c "/"
  | String _ rest => endsInSlash rest
  end.

Definition matchPath (p : pattern) (path : string) : bool :=
  if endsInSlash (ppath p) then String.prefix (ppath p) path
  else String.eqb (ppath p) path.

(** A pattern without a method matches every method; GET also matches
    HEAD. *)
Definition matchMethod (p : pattern) (method : string) : bool :=
  String.eqb (pmethod p) "" || String.eqb (pmethod p) method
  || (String.eqb (pmethod p) "GET" && String.eqb method "HEAD").

(** Among the patterns that match, the most specific wins: for patterns
    without wildcards, the one with the longest path, and at equal paths
    the one that names a method. *)
Definition moreSpecific (p q : pattern) : bool :=
  let lp := String.length (ppath p) in
  let lq := String.length (ppath q) in
  (lq <? lp)%nat || ((lq =? lp)%nat && String.eqb (pmethod q) "" && negb (String.eqb (pmethod p) "")).

Section routing.

Context {H : Type}.

(** The registrations, in the order of the [mux.HandleFunc] calls. *)
Definition ServeMux : Type := list (string * H).

Fixpoint best (method path : string) (m : ServeMux) (found : option (pattern * H))
    : option (pattern * H) :=
  match m with
  | [] => found
  | (s, h) :: m' =>
      let p := parsePattern s in
      if matchPath p path && matchMethod p method then
        match found with
        | Some (q, _) => if moreSpecific p q then best method path m' (Some (p, h))
                         else best method path m' found
        | None => best method path m' (Some (p, h))
        end
      else best method path m' found
  end.

Inductive routed : Type :=
| Handle (h : H)
| MethodNotAllowed
| NotFound.

(** [ServeMux.Handler]: the handler of the matching pattern; failing that,
    405 when some pattern matches the path under another method, and 404
    otherwise. *)
Definition route (m : ServeMux) (method path : string) : routed :=
  match best method path m None with
  | Some (_, h) => Handle h
  | None =>
      if existsb (fun sh => matchPath (parsePattern (fst sh)) path) m
      then MethodNotAllowed else NotFound
  end.

End routing.

Arguments ServeMux : clear implicits.
Arguments routed : clear implicits.

End mux.

(** ** sync/atomic: the shared store and the programs over it *)

Module atomic.

Record St : Type := {
  ready : bool;
  forceFail : bool;
  inflight : Z
}.

(** [atomic.Int64] wraps around. *)
Definition wrap64 (z : Z) : Z := (z + 2 ^ 63) mod 2 ^ 64 - 2 ^ 63.

Definition int64 (z : Z) : Prop := - 2 ^ 63 <= z < 2 ^ 63.

Inductive Op : Type -> Type :=
| ReadyLoad : Op bool
| ReadyStore (b : bool) : Op unit
| ForceFailLoad : Op bool
| ForceFailStore (b : bool) : Op unit
| InflightAdd (delta : Z) : Op Z
| InflightLoad : Op Z
| Sleep (duration : Z) : Op unit.

Definition handle {X : Type} (op : Op X) (s : St) : X * St :=
  match op in Op X return X * St with
  | ReadyLoad => (ready s, s)
  | ReadyStore b => (tt, {| ready := b; forceFail := forceFail s; inflight := inflight s |})
  | ForceFailLoad => (forceFail s, s)
  | ForceFailStore b => (tt, {| ready := ready s; forceFail := b; inflight := inflight s |})
  | InflightAdd delta =>
      let v := wrap64 (inflight s + delta) in
      (v, {| ready := ready s; forceFail := forceFail s; inflight := v |})
  | InflightLoad => (inflight s, s)
  | Sleep _ => (tt, s)
  end.

(** What an observer of the store sees of one operation. *)
Inductive Event : Type :=
| ELoadReady (b : bool)
| EStoreReady (b : bool)
| ELoadForceFail (b : bool)
| EStoreForceFail (b : bool)
| EAddInflight (delta : Z)
| ELoadInflight (v : Z)
| ESleep (duration : Z).

Definition event {X : Type} (op : Op X) : X -> Event :=
  match op in Op X return X -> Event with
  | ReadyLoad => ELoadReady
  | ReadyStore b => fun _ => EStoreReady b
  | ForceFailLoad => ELoadForceFail
  | ForceFailStore b => fun _ => EStoreForceFail b
  | InflightAdd delta => fun _ => EAddInflight delta
  | InflightLoad => ELoadInflight
  | Sleep duration => fun _ => ESleep duration
  end.

(** The atomics of a process that has just started: all zero. *)
Definition zero : St := {| ready := false; forceFail := false; inflight := 0 |}.

(** The body of a goroutine or of a handler: atomic operations, each
    followed by what the code does with its result. *)
Inductive Prog (A : Type) : Type :=
| Ret (a : A)
| Vis {X : Type} (op : Op X) (k : X -> Prog A).

Arguments Ret {A} a.
Arguments Vis {A X} op k.

Fixpoint bind {A B : Type} (p : Prog A) (f : A -> Prog B) : Prog B :=
  match p with
  | Ret a => f a
  | Vis op k => Vis op (fun x => bind (k x) f)
  end.

Definition call {X : Type} (op : Op X) : Prog X := Vis op Ret.

(** [defer d] at the head of a function body: [d] runs when the body
    returns. *)
Definition defer {A X : Type} (d : Prog X) (body : Prog A) : Prog A :=
  bind body (fun a => bind d (fun _ => Ret a)).

(** Running a program alone, from start to end. *)
Fixpoint run {A : Type} (p : Prog A) (s : St) : A * St :=
  match p with
  | Ret a => (a, s)
  | Vis op k => let '(x, s') := handle op s in run (k x) s'
  end.

Fixpoint trace {A : Type} (p : Prog A) (s : St) : list Event :=
  match p with
  | Ret _ => []
  | Vis op k => let '(x, s') := handle op s in event op x :: trace (k x) s'
  end.

(** One atomic operation of a program that runs among others. *)
Definition next {A : Type} (p : Prog A) (s : St) : option (Event * Prog A * St) :=
  match p with
  | Ret _ => None
  | Vis op k => let '(x, s') := handle op s in Some (event op x, k x, s')
  end.

End atomic.

Notation "'do' x <- p ; q" := (atomic.bind p (fun x => q))
  (at level 10, x name, p at level 100, q at level 200,
   format "'[v' 'do'  x  <-  p ; '/' q ']'").

(** What one invocation of a handler obtains from outside the process. *)
Record Inputs : Type := {
  request : http.Request;
  now : string;                       (* the clock reading formatted by shared.JSON *)
  intn : Z;                           (* rand.Intn(10000) *)
  get : string -> http.GetResult      (* client.Get(url), timeout 3s *)
}.

Definition HandlerFunc : Type := Inputs -> atomic.Prog shared.Written.

(** ** svc/api (src/svc/api/main.go) *)

Module api.

Import atomic shared.

Section main.

Variable environ : os.Environment.

Definition port : string :=
  let port := os.Getenv environ "PORT" in
  if String.eqb port "" then "3456" else port.

Definition startupDelay : Z := 3 * time.Second.

(** The goroutine that ends the startup window. *)
Definition startup : Prog unit :=
  do _ <- call (Sleep startupDelay);
  call (ReadyStore true).

(** GET / *)
Definition handleRoot : HandlerFunc := fun i =>
  do _ <- call (InflightAdd 1);
  defer (call (InflightAdd (-1)))
    (do n <- call InflightLoad;
     Ret (JSON (now i) http.StatusOK
       {| Service := "api"; Status := "ok"; Port := port; Timestamp := "";
          Message := "request #" +:+ fmt.d (intn i) +:+ " | in-flight: " +:+ fmt.d n |})).

Definition healthzHandler : HandlerFunc := fun i =>
  do r <- call ReadyLoad;
  if negb r then
    Ret (JSON (now i) http.StatusServiceUnavailable
      {| Service := "api"; Status := "not_ready"; Port := port; Timestamp := "";
         Message := "still starting up" |})
  else
    do f <- call ForceFailLoad;
    if f then
      Ret (JSON (now i) http.StatusServiceUnavailable
        {| Service := "api"; Status := "unhealthy"; Port := port; Timestamp := "";
           Message := "health manually toggled to fail" |})
    else
      Ret (JSON (now i) http.StatusOK
        {| Service := "api"; Status := "healthy"; Port := port; Timestamp := "";
           Message := "" |}).

(** POST /healthz/fail *)
Definition handleHealthzFail : HandlerFunc := fun i =>
  do _ <- call (ForceFailStore true);
  Ret (JSON (now i) http.StatusOK
    {| Service := "api"; Status := "ok"; Port := port; Timestamp := "";
       Message := "healthcheck will now fail — liveness probe should restart this container" |}).

(** POST /healthz/recover *)
Definition handleHealthzRecover : HandlerFunc := fun i =>
  do _ <- call (ForceFailStore false);
  Ret (JSON (now i) http.StatusOK
    {| Service := "api"; Status := "ok"; Port := port; Timestamp := "";
       Message := "healthcheck will now pass again" |}).

(** GET /slow; [duration] prints as 5s. *)
Definition handleSlow : HandlerFunc := fun i =>
  do _ <- call (InflightAdd 1);
  defer (call (InflightAdd (-1)))
    (let duration := 5 * time.Second in
     do _ <- call (Sleep duration);
     Ret (JSON (now i) http.StatusOK
       {| Service := "api"; Status := "ok"; Port := port; Timestamp := "";
          Message := "slow request completed after 5s" |})).

(** GET /protected *)
Definition handleProtected : HandlerFunc := fun i =>
  do _ <- call (InflightAdd 1);
  defer (call (InflightAdd (-1)))
    (let principal := http.Header_Get (http.Headers (request i)) "X-Unkey-Principal" in
     if String.eqb principal "" then
       Ret (JSON (now i) http.StatusUnauthorized
         {| Service := "api"; Status := "unauthorized"; Port := port; Timestamp := "";
            Message := "missing X-Unkey-Principal header — sentinel middleware not configured?" |})
     else
       match json.Unmarshal principal with
       | inr _ =>
           Ret (JSON (now i) http.StatusOK
             {| Service := "api"; Status := "ok"; Port := port; Timestamp := "";
                Message := "principal (raw): " +:+ principal |})
       | inl parsed =>
           Ret {| Code := http.StatusOK;
                   ContentType := "application/json";
                   Content := EncodeMap
                     (<["service" := json.JString "api"]>
                      (<["status" := json.JString "authenticated"]>
                       (<["port" := json.JString port]>
                        (<["principal" := default json.JNull parsed]> ∅)))) |}
       end).

(** GET /env *)
Definition handleEnv : HandlerFunc := fun i =>
  let envs := sort.Strings environ in
  let vars : gmap string string :=
    foldl (fun vars e => let '(k, v, _) := strings.Cut e "=" in <[k := v]> vars) ∅ envs in
  Ret {| Code := http.StatusOK;
          ContentType := "application/json";
          Content := EncodeMap (json.JString <$> vars) |}.

(** GET /probe *)
Definition handleProbe : HandlerFunc := fun i =>
  let workerURL := os.Getenv environ "WORKER_URL" in
  if String.eqb workerURL "" then
    Ret (JSON (now i) http.StatusOK
      {| Service := "api"; Status := "skipped"; Port := port; Timestamp := "";
         Message := "WORKER_URL not set — set it to the worker's internal address to test network isolation" |})
  else
    match get i (workerURL +:+ "/healthz") with
    | http.GetError err =>
        Ret (JSON (now i) http.StatusOK
          {| Service := "api"; Status := "isolated"; Port := port; Timestamp := "";
             Message := "cannot reach worker at " +:+ workerURL +:+ ": " +:+ err
                        +:+ " — network isolation is working" |})
    | http.GetResponse StatusCode =>
        Ret (JSON (now i) http.StatusOK
          {| Service := "api"; Status := "NOT_ISOLATED"; Port := port; Timestamp := "";
             Message := "reached worker at " +:+ workerURL +:+ " — got HTTP " +:+ fmt.d StatusCode
                        +:+ " — network isolation is BROKEN" |})
    end.

End main.

Inductive Handler : Type :=
| Root | Healthz | HealthzFail | HealthzRecover | Slow | Protected | Env | Probe.

Definition handlers : list Handler :=
  [Root; Healthz; HealthzFail; HealthzRecover; Slow; Protected; Env; Probe].

Definition handler (environ : os.Environment) (h : Handler) : HandlerFunc :=
  match h with
  | Root => handleRoot environ
  | Healthz => healthzHandler environ
  | HealthzFail => handleHealthzFail environ
  | HealthzRecover => handleHealthzRecover environ
  | Slow => handleSlow environ
  | Protected => handleProtected environ
  | Env => handleEnv environ
  | Probe => handleProbe environ
  end.

(** The registrations of [main], in order. *)
Definition mux : mux.ServeMux Handler :=
  [("GET /", Root);
   ("GET /healthz", Healthz);
   ("POST /healthz", Healthz);
   ("POST /healthz/fail", HealthzFail);
   ("POST /healthz/recover", HealthzRecover);
   ("GET /slow", Slow);
   ("GET /protected", Protected);
   ("GET /env", Env);
   ("GET /probe", Probe)].

End api.

(** The api of src/unnamed/part_001: the same [main] up to GET /slow, line
    for line, without the three handlers registered after it. *)

Module api_part_001.

Inductive Handler : Type :=
| Root | Healthz | HealthzFail | HealthzRecover | Slow.

Definition handlers : list Handler :=
  [Root; Healthz; HealthzFail; HealthzRecover; Slow].

Definition handler (environ : os.Environment) (h : Handler) : HandlerFunc :=
  match h with
  | Root => api.handleRoot environ
  | Healthz => api.healthzHandler environ
  | HealthzFail => api.handleHealthzFail environ
  | HealthzRecover => api.handleHealthzRecover environ
  | Slow => api.handleSlow environ
  end.

Definition mux : mux.ServeMux Handler :=
  [("GET /", Root);
   ("GET /healthz", Healthz);
   ("POST /healthz", Healthz);
   ("POST /healthz/fail", HealthzFail);
   ("POST /healthz/recover", HealthzRecover);
   ("GET /slow", Slow)].

End api_part_001.

(** ** svc/worker ([Run], src/pkg/shared/response.go) *)

Module worker.

Import atomic shared.

Section Run.

Variable environ : os.Environment.

Definition port : string :=
  let port := os.Getenv environ "PORT" in
  if String.eqb port "" then "9090" else port.

(** The warm-up goroutine. *)
Definition startup : Prog unit :=
  do _ <- call (Sleep (2 * time.Second));
  call (ReadyStore true).

(** GET /healthz *)
Definition handleHealthz : HandlerFunc := fun i =>
  do r <- call ReadyLoad;
  if negb r then
    Ret (JSON (now i) http.StatusServiceUnavailable
      {| Service := "worker"; Status := "not_ready"; Port := port; Timestamp := "";
         Message := "still warming up" |})
  else
    do f <- call ForceFailLoad;
    if f then
      Ret (JSON (now i) http.StatusServiceUnavailable
        {| Service := "worker"; Status := "unhealthy"; Port := port; Timestamp := "";
           Message := "health manually toggled to fail" |})
    else
      Ret (JSON (now i) http.StatusOK
        {| Service := "worker"; Status := "healthy"; Port := port; Timestamp := "";
           Message := "" |}).

(** POST /healthz/fail *)
Definition handleHealthzFail : HandlerFunc := fun i =>
  do _ <- call (ForceFailStore true);
  Ret (JSON (now i) http.StatusOK
    {| Service := "worker"; Status := "ok"; Port := port; Timestamp := "";
       Message := "healthcheck will now fail" |}).

(** POST /healthz/recover *)
Definition handleHealthzRecover : HandlerFunc := fun i =>
  do _ <- call (ForceFailStore false);
  Ret (JSON (now i) http.StatusOK
    {| Service := "worker"; Status := "ok"; Port := port; Timestamp := "";
       Message := "healthcheck will now pass" |}).

(** GET / *)
Definition handleRoot : HandlerFunc := fun i =>
  Ret (JSON (now i) http.StatusOK
    {| Service := "worker"; Status := "ok"; Port := port; Timestamp := "";
       Message := "background worker running" |}).

(** GET /probe *)
Definition handleProbe : HandlerFunc := fun i =>
  let apiURL := os.Getenv environ "API_URL" in
  if String.eqb apiURL "" then
    Ret (JSON (now i) http.StatusOK
      {| Service := "worker"; Status := "skipped"; Port := port; Timestamp := "";
         Message := "API_URL not set — set it to the api's internal address to test network isolation" |})
  else
    match get i (apiURL +:+ "/healthz") with
    | http.GetError err =>
        Ret (JSON (now i) http.StatusOK
          {| Service := "worker"; Status := "isolated"; Port := port; Timestamp := "";
             Message := "cannot reach api at " +:+ apiURL +:+ ": " +:+ err
                        +:+ " — network isolation is working" |})
    | http.GetResponse StatusCode =>
        Ret (JSON (now i) http.StatusOK
          {| Service := "worker"; Status := "NOT_ISOLATED"; Port := port; Timestamp := "";
             Message := "reached api at " +:+ apiURL +:+ " — got HTTP " +:+ fmt.d StatusCode
                        +:+ " — network isolation is BROKEN" |})
    end.

End Run.

Inductive Handler : Type :=
| Healthz | HealthzFail | HealthzRecover | Root | Probe.

Definition handlers : list Handler :=
  [Healthz; HealthzFail; HealthzRecover; Root; Probe].

Definition handler (environ : os.Environment) (h : Handler) : HandlerFunc :=
  match h with
  | Healthz => handleHealthz environ
  | HealthzFail => handleHealthzFail environ
  | HealthzRecover => handleHealthzRecover environ
  | Root => handleRoot environ
  | Probe => handleProbe environ
  end.

(** The registrations of [Run], in order. *)
Definition mux : mux.ServeMux Handler :=
  [("GET /healthz", Healthz);
   ("POST /healthz/fail", HealthzFail);
   ("POST /healthz/recover", HealthzRecover);
   ("GET /", Root);
   ("GET /probe", Probe)].

(** The worker's [main] in the same file is [Run] without GET /probe. *)
Definition mux_main : mux.ServeMux Handler :=
  [("GET /healthz", Healthz);
   ("POST /healthz/fail", HealthzFail);
   ("POST /healthz/recover", HealthzRecover);
   ("GET /", Root)].

End worker.

(** ** Serving a request *)

Definition notFound : shared.Written :=
  {| shared.Code := http.StatusNotFound;
     shared.ContentType := "text/plain; charset=utf-8";
     shared.Content := shared.PlainText ("404 page not found" +:+ String "010" "") |}.

Definition methodNotAllowed : shared.Written :=
  {| shared.Code := http.StatusMethodNotAllowed;
     shared.ContentType := "text/plain; charset=utf-8";
     shared.Content := shared.PlainText ("Method Not Allowed" +:+ String "010" "") |}.

(** [mux.ServeHTTP]: the program that answers the request of [i]. *)
Definition serve {H : Type} (m : mux.ServeMux H) (handler : H -> HandlerFunc) : HandlerFunc :=
  fun i =>
    match mux.route m (http.Method (request i)) (http.Path (request i)) with
    | mux.Handle h => handler h i
    | mux.MethodNotAllowed => atomic.Ret methodNotAllowed
    | mux.NotFound => atomic.Ret notFound
    end.

(** ** Shutdown *)

Module shutdown.

Inductive Event : Type :=
| Slept (duration : Z)
| Exited (code : Z).

(** What the drain loop of the api meets from outside: the value
    [inflight.Load()] returns at its n-th turn, by how many nanoseconds
    the n-th [time.Sleep] overshoots, and by how many the timer of
    [time.After] is late. *)
Record Drain : Type := {
  loaded : nat -> Z;
  overshoot : nat -> nat;
  late : nat
}.

(** The time after which a receive from the deadline channel succeeds. *)
Definition deadline (env : Drain) : Z := 10 * time.Second + Z.of_nat (late env).

(** The loop of the api's signal goroutine; [elapsed] is the time since
    [time.After(10 * time.Second)] was called. *)
Fixpoint drain (fuel : nat) (env : Drain) (turn : nat) (elapsed : Z) : option (list Event) :=
  match fuel with
  | O => None
  | S fuel' =>
      if 0 <? loaded env turn then
        if deadline env <=? elapsed then Some [Exited 1]
        else
          let duration := 100 * time.Millisecond in
          option_map (cons (Slept duration))
            (drain fuel' env (S turn) (elapsed + duration + Z.of_nat (overshoot env turn)))
      else Some [Exited 0]
  end.

(** The time the loop has spent when it starts its n-th turn. *)
Fixpoint elapsed (env : Drain) (n : nat) : Z :=
  match n with
  | O => 0
  | S k => elapsed env k + 100 * time.Millisecond + Z.of_nat (overshoot env k)
  end.

(** The api's goroutine, once [s := <-sig] has returned. *)
Definition api (fuel : nat) (s : os.Signal) (env : Drain) : option (list Event) :=
  drain fuel env 0 0.

(** The worker's goroutine, once [s := <-sig] has returned. *)
Definition worker (s : os.Signal) : list Event :=
  [Slept (2 * time.Second); Exited 0].

End shutdown.

(** ** The two services *)

Inductive ServiceName : Type := Api | Worker.

Record Service : Type := {
  Handlers : Type;
  routes : mux.ServeMux Handlers;
  handlerOf : Handlers -> HandlerFunc;
  startup : atomic.Prog unit;
  healthz : HandlerFunc;
  healthzFail : HandlerFunc;
  healthzRecover : HandlerFunc;
  probe : HandlerFunc;
  portOf : string
}.

Definition service (name : ServiceName) (environ : os.Environment) : Service :=
  match name with
  | Api =>
      {| Handlers := api.Handler;
         routes := api.mux;
         handlerOf := api.handler environ;
         startup := api.startup;
         healthz := api.healthzHandler environ;
         healthzFail := api.handleHealthzFail environ;
         healthzRecover := api.handleHealthzRecover environ;
         probe := api.handleProbe environ;
         portOf := api.port environ |}
  | Worker =>
      {| Handlers := worker.Handler;
         routes := worker.mux;
         handlerOf := worker.handler environ;
         startup := worker.startup;
         healthz := worker.handleHealthz environ;
         healthzFail := worker.handleHealthzFail environ;
         healthzRecover := worker.handleHealthzRecover environ;
         probe := worker.handleProbe environ;
         portOf := worker.port environ |}
  end.

(** The string a service puts in the [service] member of its responses. *)
Definition serviceString (name : ServiceName) : string :=
  match name with Api => "api" | Worker => "worker" end.

(** The environment variable that holds the address of the peer. *)
Definition peerVariable (name : ServiceName) : string :=
  match name with Api => "WORKER_URL" | Worker => "API_URL" end.

(** A member of a written body, when it is a string. *)
Definition member (key : string) (w : shared.Written) : option string :=
  match shared.field key (shared.Content w) with
  | Some (json.JString s) => Some s
  | _ => None
  end.

(** ** A process: the store and the tasks that run over it *)

Module process.

Import atomic.

Inductive Task : Type :=
| Goroutine (p : Prog unit)
| Serving (p : Prog shared.Written).

Record Process : Type := {
  store : St;
  tasks : list Task
}.

(** What happens next is chosen from outside: a request arrives, or the
    task at some index performs its next atomic operation. *)
Inductive Choice : Type :=
| Accept (i : Inputs)
| Advance (n : nat).

Definition advance (t : Task) (s : St) : option (Event * Task * St) :=
  match t with
  | Goroutine p =>
      match next p s with
      | Some (e, p', s') => Some (e, Goroutine p', s')
      | None => None
      end
  | Serving p =>
      match next p s with
      | Some (e, p', s') => Some (e, Serving p', s')
      | None => None
      end
  end.

Section exec.

Variable svc : Service.

(** A process starts with zeroed atomics and the startup goroutine. *)
Definition boot : Process :=
  {| store := zero; tasks := [Goroutine (startup svc)] |}.

Definition choose (P : Process) (c : Choice) : option (Process * list (nat * Event)) :=
  match c with
  | Accept i =>
      Some ({| store := store P;
               tasks := tasks P ++ [Serving (serve (routes svc) (handlerOf svc) i)] |}, [])
  | Advance n =>
      match tasks P !! n with
      | Some t =>
          match advance t (store P) with
          | Some (e, t', s') => Some ({| store := s'; tasks := <[n := t']> (tasks P) |}, [(n, e)])
          | None => None
          end
      | None => None
      end
  end.

(** The process after a sequence of choices, with the operations performed
    and the index of the task that performed each. *)
Fixpoint exec (P : Process) (cs : list Choice) : option (Process * list (nat * Event)) :=
  match cs with
  | [] => Some (P, [])
  | c :: cs' =>
      match choose P c with
      | Some (P', log) =>
          match exec P' cs' with
          | Some (P'', log') => Some (P'', log ++ log')
          | None => None
          end
      | None => None
      end
  end.

End exec.

Definition isReadyStore (e : Event) : bool :=
  match e with EStoreReady _ => true | _ => false end.

Definition readyStores (log : list (nat * Event)) : list (nat * Event) :=
  List.filter (fun ne => isReadyStore (snd ne)) log.

End process.

(** ** Properties of programs *)

Definition writesReady {X : Type} (op : atomic.Op X) : bool :=
  match op with atomic.ReadyStore _ => true | _ => false end.

(** A program that never stores to [ready]. *)
Fixpoint quiet {A : Type} (p : atomic.Prog A) : Prop :=
  match p with
  | atomic.Ret _ => True
  | atomic.Vis op k => writesReady op = false /\ forall x, quiet (k x)
  end.

Definition loadsReadyTrue {X : Type} (op : atomic.Op X) : X -> Prop :=
  match op in atomic.Op X return X -> Prop with
  | atomic.ReadyLoad => fun b => b = true
  | _ => fun _ => True
  end.

(** A program all of whose results satisfy [good], provided every load of
    [ready] it still has to make returns true. *)
Fixpoint settled {A : Type} (good : A -> Prop) (p : atomic.Prog A) : Prop :=
  match p with
  | atomic.Ret a => good a
  | atomic.Vis op k => forall x, loadsReadyTrue op x -> settled good (k x)
  end.

Definition isAdd (e : atomic.Event) : bool :=
  match e with atomic.EAddInflight _ => true | _ => false end.

(** The operations of a trace that change [inflight]. *)
Definition counterWrites (t : list atomic.Event) : list atomic.Event :=
  List.filter isAdd t.

(** Incremented on entry, decremented on exit, untouched in between. *)
Definition bracketed (t : list atomic.Event) : Prop :=
  exists mid, t = atomic.EAddInflight 1 :: mid ++ [atomic.EAddInflight (-1)]
              /\ counterWrites mid = [].

(** ** The startup goroutine in a process *)

(** The warm-up time of a service. *)
Definition startupDelay (name : ServiceName) : Z :=
  match name with Api => 3 * time.Second | Worker => 2 * time.Second end.

(** What is left of the startup goroutine: everything, the store to
    [ready], nothing. *)
Definition stage (name : ServiceName) (k : nat) : atomic.Prog unit :=
  match k with
  | O => do _ <- atomic.call (atomic.Sleep (startupDelay name));
         atomic.call (atomic.ReadyStore true)
  | S O => atomic.call (atomic.ReadyStore true)
  | _ => atomic.Ret tt
  end.

Definition quietServing (t : process.Task) : Prop :=
  match t with
  | process.Serving p => quiet p
  | process.Goroutine _ => False
  end.

(** The shape of a process whose startup goroutine is at stage [k]. *)
Record Inv (name : ServiceName) (k : nat) (P : process.Process) : Prop := {
  inv_stage : (k <= 2)%nat;
  inv_tasks : exists rest, process.tasks P = process.Goroutine (stage name k) :: rest
                           /\ Forall quietServing rest;
  inv_ready : atomic.ready (process.store P) = (k =? 2)%nat
}.

(** Three runs of the api's drain loop: no request in flight; requests in
    flight during the first three turns; a request that never ends. *)
Definition idle : shutdown.Drain :=
  {| shutdown.loaded := fun _ => 0; shutdown.overshoot := fun _ => O;
     shutdown.late := O |}.

Definition busy : shutdown.Drain :=
  {| shutdown.loaded := fun n => if (n <? 3)%nat then 1 else 0;
     shutdown.overshoot := fun _ => O;
     shutdown.late := O |}.

Definition stuck : shutdown.Drain :=
  {| shutdown.loaded := fun _ => 1; shutdown.overshoot := fun _ => O;
     shutdown.late := O |}.

(** A handler touches the in-flight counter when some invocation of it
    changes the counter. *)
Definition touches (h : HandlerFunc) : Prop :=
  exists i s, counterWrites (atomic.trace (h i) s) <> [].

(** ** Sample inputs *)

(** A request with the given method, path and headers, made at a fixed
    instant; the outgoing call, if any, fails. *)
Definition sample (method path : string) (headers : http.Header) : Inputs :=
  {| request := {| http.Method := method; http.Path := path;
                   http.Headers := headers; http.RequestBody := "" |};
     now := "2025-01-01T00:00:00Z";
     intn := 0;
     get := fun _ => http.GetError "connection refused" |}.

(** What the health handler answers once the service is ready. *)
Definition healthyOrUnhealthy (w : shared.Written) : Prop :=
  (shared.Code w, member "status" w) = (503, Some "unhealthy")
  \/ (shared.Code w, member "status" w) = (200, Some "healthy").

(** A schedule: the startup goroutine sleeps and stores, then a request
    for /healthz arrives and is served. *)
Definition warmThenProbe : list process.Choice :=
  [process.Advance 0; process.Advance 0;
   process.Accept (sample "GET" "/healthz" ∅);
   process.Advance 1; process.Advance 1].

(** ** The command (src/unnamed/part_000) *)

Module cmd.

(** What [main] does with its arguments: it runs one of the services, or
    writes a line to standard error and exits. *)
Inductive Outcome : Type :=
| RunApi
| RunWorker
| Exit (stderr : string) (code : Z).

Definition newline : string := String "010" EmptyString.

(** [main]; [Args] is [os.Args], the name of the program first. *)
Definition main (Args : list string) : Outcome :=
  if (length Args <? 2)%nat then
    Exit ("usage: service <api|worker>" +:+ newline) 1
  else
    let name := nth 1 Args "" in
    if String.eqb name "api" then RunApi
    else if String.eqb name "worker" then RunWorker
    else Exit ("unknown service: " +:+ name +:+ " (expected api or worker)" +:+ newline) 1.

End cmd.

(** ** The environment as GET /env sees it *)

(** The name of the variable an entry of the environment sets: the text
    before its first equals sign. *)
Definition variable (e : string) : string := fst (fst (strings.Cut e "=")).

(** ** The in-flight counter in a process *)

(** By how much an operation changes [inflight]. *)
Definition delta {X : Type} (op : atomic.Op X) : Z :=
  match op with atomic.InflightAdd d => d | _ => 0 end.

(** [holds n p]: the program [p] has [n] increments of the counter to its
    name; whatever its operations return, that number stays 0 or 1, and it
    is 0 when the program returns. *)
Fixpoint holds {A : Type} (n : Z) (p : atomic.Prog A) : Prop :=
  match p with
  | atomic.Ret _ => n = 0
  | atomic.Vis op k =>
      (n + delta op = 0 \/ n + delta op = 1) /\ forall x, holds (n + delta op) (k x)
  end.

(** The number of increments a program has to its name, read off the
    operations it still has to perform (each answered as on a fresh
    store). *)
Fixpoint held {A : Type} (p : atomic.Prog A) : Z :=
  match p with
  | atomic.Ret _ => 0
  | atomic.Vis op k => held (k (fst (atomic.handle op atomic.zero))) - delta op
  end.

Definition heldBy (t : process.Task) : Z :=
  match t with
  | process.Goroutine p => held p
  | process.Serving p => held p
  end.

Definition balanced (t : process.Task) : Prop :=
  match t with
  | process.Goroutine p => holds (held p) p
  | process.Serving p => holds (held p) p
  end.

(** The increments held by all the tasks of a process. *)
Definition inFlight (ts : list process.Task) : Z :=
  fold_right (fun t n => heldBy t + n) 0 ts.

(** A task that holds what its remaining operations say, 0 or 1. *)
Definition tidy (t : process.Task) : Prop :=
  balanced t /\ (heldBy t = 0 \/ heldBy t = 1).

(** The counter of a process agrees with what its tasks hold. *)
Record Bal (P : process.Process) : Prop := {
  bal_tasks : Forall tidy (process.tasks P);
  bal_store : atomic.inflight (process.store P)
              = atomic.wrap64 (inFlight (process.tasks P))
}.

(** A request that has been accepted and not yet answered. *)
Definition beingServed (t : process.Task) : bool :=
  match t with
  | process.Serving (atomic.Ret _) => false
  | process.Serving _ => true
  | process.Goroutine _ => false
  end.

Definition served (ts : list process.Task) : nat := length (List.filter beingServed ts).

(** ** The handlers of earlier versions among the later ones *)

(** Each handler of the api of src/unnamed/part_001 is a handler of the api
    of src/svc/api/main.go. *)
Definition later (h : api_part_001.Handler) : api.Handler :=
  match h with
  | api_part_001.Root => api.Root
  | api_part_001.Healthz => api.Healthz
  | api_part_001.HealthzFail => api.HealthzFail
  | api_part_001.HealthzRecover => api.HealthzRecover
  | api_part_001.Slow => api.Slow
  end.

(** A registration under another name for its handler. *)
Definition rename {H H' : Type} (f : H -> H') (sh : string * H) : string * H' :=
  (fst sh, f (snd sh)).

(** A schedule: a request for /slow arrives and its handler has entered,
    and a request for /healthz is answered meanwhile. *)
Definition slowInFlight : list process.Choice :=
  [process.Accept (sample "GET" "/slow" ∅); process.Advance 1;
   process.Accept (sample "GET" "/healthz" ∅); process.Advance 2].

(** A request like [sample], whose outgoing call reaches [url] only. *)
Definition reaching (url : string) (method path : string) (headers : http.Header) : Inputs :=
  {| request := {| http.Method := method; http.Path := path;
                   http.Headers := headers; http.RequestBody := "ping" |};
     now := "2025-01-01T00:00:00Z";
     intn := 7;
     get := fun u => if String.eqb u url then http.GetResponse 200
                     else http.GetError "no such host" |}.

Definition loadsReadyFalse {X : Type} (op : atomic.Op X) : X -> Prop :=
  match op in atomic.Op X return X -> Prop with
  | atomic.ReadyLoad => fun b => b = false
  | _ => fun _ => True
  end.

(** A program all of whose results satisfy [good], provided every load of
    [ready] it still has to make returns false. *)
Fixpoint cold {A : Type} (good : A -> Prop) (p : atomic.Prog A) : Prop :=
  match p with
  | atomic.Ret a => good a
  | atomic.Vis op k => forall x, loadsReadyFalse op x -> cold good (k x)
  end.

(** What the health handler answers while the service warms up. *)
Definition notReady (w : shared.Written) : Prop :=
  (shared.Code w, member "status" w) = (503, Some "not_ready").

(** * Theorems *)

Import atomic.

(** ** The health check *)

Lemma service_cases (P : ServiceName -> Prop) : P Api -> P Worker -> forall name, P name.
Proof. intros Ha Hw [|]; assumption. Qed.

(** C1. For every request that reaches the /healthz handler of either
    service, the handler answers 503 with status not_ready when the
    readiness flag is false; otherwise 503 with status unhealthy when the
    forced-failure flag is true; otherwise 200 with status healthy.  The
    branches are taken in this order (the forced-failure flag is not even
    loaded while the service is not ready) and the store is left as it
    was. *)
Theorem C1_healthz_three_branches (name : ServiceName) (environ : os.Environment)
    (i : Inputs) (s : St) :
  let p := healthz (service name environ) i in
  snd (run p s) = s
  /\ (shared.Code (fst (run p s)), member "status" (fst (run p s)))
     = (if negb (ready s) then (503, Some "not_ready")
        else if forceFail s then (503, Some "unhealthy")
        else (200, Some "healthy"))
  /\ trace p s
     = (if negb (ready s) then [ELoadReady false]
        else [ELoadReady true; ELoadForceFail (forceFail s)]).
Proof.
  revert name. apply service_cases; destruct s as [[|] [|] n]; cbn; auto.
Qed.

(** C10. Two invocations of the /healthz handler of a service that find
    equal values of the readiness flag and of the forced-failure flag give
    the same status code and the same status and message members, whatever
    the two requests (method, headers, body), clock readings and the rest
    of the store are. *)
Theorem C10_healthz_depends_on_flags_only (name : ServiceName) (environ : os.Environment)
    (i1 i2 : Inputs) (s1 s2 : St) :
  ready s1 = ready s2 ->
  forceFail s1 = forceFail s2 ->
  let w1 := fst (run (healthz (service name environ) i1) s1) in
  let w2 := fst (run (healthz (service name environ) i2) s2) in
  shared.Code w1 = shared.Code w2
  /\ member "status" w1 = member "status" w2
  /\ member "message" w1 = member "message" w2.
Proof.
  intros Hr Hf. destruct s1 as [r1 f1 n1], s2 as [r2 f2 n2].
  cbn in Hr, Hf. subst r1 f1.
  revert name. apply service_cases; destruct r2, f2; cbn; auto.
Qed.

Lemma C10_healthz_depends_on_flags_only_witness :
  let i1 := sample "GET" "/healthz" ∅ in
  let i2 := sample "POST" "/healthz" {["X-Unkey-Principal" := ["42"]]} in
  let s1 := {| ready := true; forceFail := true; inflight := 0 |} in
  let s2 := {| ready := true; forceFail := true; inflight := 7 |} in
  let w1 := fst (run (healthz (service Api []) i1) s1) in
  let w2 := fst (run (healthz (service Api []) i2) s2) in
  (ready s1 = ready s2 /\ forceFail s1 = forceFail s2)
  /\ shared.Code w1 = shared.Code w2
  /\ member "status" w1 = member "status" w2
  /\ member "message" w1 = member "message" w2.
Proof.
  split; [split; reflexivity|].
  apply (C10_healthz_depends_on_flags_only Api []); reflexivity.
Defined.

(** ** Forced failure *)

(** C5. In every state of either service, the handler of POST /healthz/fail
    sets the forced-failure flag (and nothing else) and the handler of
    POST /healthz/recover clears it, each answering 200 with status ok;
    fail followed by recover leaves the flag false whatever it was, and
    running either handler twice leaves the store as running it once. *)
Theorem C5_forced_failure_toggles (name : ServiceName) (environ : os.Environment)
    (i j : Inputs) (s : St) :
  let svc := service name environ in
  let fail := fun i s => run (healthzFail svc i) s in
  let recover := fun i s => run (healthzRecover svc i) s in
  (snd (fail i s) = {| ready := ready s; forceFail := true; inflight := inflight s |}
   /\ shared.Code (fst (fail i s)) = 200
   /\ member "status" (fst (fail i s)) = Some "ok")
  /\ (snd (recover i s) = {| ready := ready s; forceFail := false; inflight := inflight s |}
      /\ shared.Code (fst (recover i s)) = 200
      /\ member "status" (fst (recover i s)) = Some "ok")
  /\ forceFail (snd (recover j (snd (fail i s)))) = false
  /\ snd (fail j (snd (fail i s))) = snd (fail i s)
  /\ snd (recover j (snd (recover i s))) = snd (recover i s).
Proof.
  revert name. apply service_cases; cbn; repeat split; reflexivity.
Qed.

(** ** The probe *)

(** C7. On both services the handler of GET /probe always answers 200 and
    leaves the store alone.  Its status is skipped when the variable that
    names the peer (WORKER_URL for the api, API_URL for the worker) is
    empty; otherwise it is isolated when the call to that address followed
    by /healthz fails, and NOT_ISOLATED when the call succeeds. *)
Theorem C7_probe_always_ok (name : ServiceName) (environ : os.Environment)
    (i : Inputs) (s : St) :
  let url := os.Getenv environ (peerVariable name) in
  let w := fst (run (probe (service name environ) i) s) in
  snd (run (probe (service name environ) i) s) = s
  /\ shared.Code w = 200
  /\ member "status" w
     = Some (if String.eqb url "" then "skipped"
             else match get i (url +:+ "/healthz") with
                  | http.GetError _ => "isolated"
                  | http.GetResponse _ => "NOT_ISOLATED"
                  end).
Proof.
  revert name. apply service_cases; cbn;
    [unfold api.handleProbe | unfold worker.handleProbe];
    destruct (String.eqb _ ""); cbn; auto;
    destruct (get i _); cbn; auto.
Qed.

(** ** Routing of /healthz *)

(** C2, as the spec has it, fails on the worker: its only registration for
    the path is GET /healthz, so a POST to /healthz does not reach the
    health handler; the mux answers it with 405. *)
Lemma C2_worker_rejects_post_healthz :
  mux.route worker.mux "POST" "/healthz" = mux.MethodNotAllowed
  /\ mux.route worker.mux "POST" "/healthz" <> mux.Handle worker.Healthz
  /\ fst (run (serve worker.mux (worker.handler []) (sample "POST" "/healthz" ∅)) zero)
     = methodNotAllowed.
Proof. repeat split; discriminate. Qed.

(** C2, amended.  The api registers /healthz for GET and for POST, and both
    reach its health handler; the worker registers it for GET only, so GET
    reaches its health handler and POST is answered 405 by the mux.  (HEAD
    goes where GET goes.)  The earlier api and the worker's [main] route
    /healthz as the api and the worker do. *)
Theorem C2_healthz_routes (environ : os.Environment) :
  (mux.route api.mux "GET" "/healthz" = mux.Handle api.Healthz
   /\ mux.route api.mux "POST" "/healthz" = mux.Handle api.Healthz
   /\ api.handler environ api.Healthz = api.healthzHandler environ)
  /\ (mux.route worker.mux "GET" "/healthz" = mux.Handle worker.Healthz
      /\ mux.route worker.mux "POST" "/healthz" = mux.MethodNotAllowed
      /\ worker.handler environ worker.Healthz = worker.handleHealthz environ)
  /\ (mux.route api.mux "HEAD" "/healthz" = mux.Handle api.Healthz
      /\ mux.route worker.mux "HEAD" "/healthz" = mux.Handle worker.Healthz)
  /\ (mux.route api_part_001.mux "GET" "/healthz" = mux.Handle api_part_001.Healthz
      /\ mux.route api_part_001.mux "POST" "/healthz" = mux.Handle api_part_001.Healthz
      /\ mux.route worker.mux_main "GET" "/healthz" = mux.Handle worker.Healthz
      /\ mux.route worker.mux_main "POST" "/healthz" = mux.MethodNotAllowed).
Proof. repeat split; reflexivity. Qed.

(** ** The port *)



(** ** The protected endpoint *)



(** ** The in-flight counter *)

Lemma wrap64_restore (z : Z) : int64 z -> wrap64 (wrap64 (z + 1) + -1) = z.
Proof.
  unfold int64, wrap64.
  change (2 ^ 63) with 9223372036854775808.
  change (2 ^ 64) with 18446744073709551616.
  intros Hz. destruct (Z.eq_dec z 9223372036854775807) as [->|Hne]; [reflexivity|].
  rewrite (Z.mod_small (z + 1 + _)) by lia.
  replace (z + 1 + 9223372036854775808 - 9223372036854775808 + -1
           + 9223372036854775808) with (z + 9223372036854775808) by lia.
  rewrite Z.mod_small by lia. lia.
Qed.

Lemma touches_root (environ : os.Environment) : touches (api.handleRoot environ).
Proof. exists (sample "GET" "/" ∅), zero. discriminate. Qed.

Lemma touches_slow (environ : os.Environment) : touches (api.handleSlow environ).
Proof. exists (sample "GET" "/slow" ∅), zero. discriminate. Qed.

Lemma touches_protected (environ : os.Environment) : touches (api.handleProtected environ).
Proof. exists (sample "GET" "/protected" ∅), zero. discriminate. Qed.

(** C4, as the spec has it, fails on src/svc/api/main.go: three of its
    handlers change the counter, GET /protected as well as GET / and
    GET /slow, so no two handlers are all that touch it. *)
Lemma C4_three_handlers_touch_the_counter :
  ~ (exists h1 h2 : api.Handler,
       h1 <> h2 /\ forall h, touches (api.handler [] h) <-> h = h1 \/ h = h2).
Proof.
  intros (h1 & h2 & _ & H).
  pose proof (proj1 (H api.Root) (touches_root [])) as Hr.
  pose proof (proj1 (H api.Slow) (touches_slow [])) as Hs.
  pose proof (proj1 (H api.Protected) (touches_protected [])) as Hp.
  destruct Hr as [<-|<-], Hs as [Hs|Hs], Hp as [Hp|Hp]; congruence.
Qed.

Ltac branches :=
  repeat match goal with
         | |- context [if String.eqb ?a ?b then _ else _] => destruct (String.eqb a b)
         | |- context [match get ?i ?u with _ => _ end] => destruct (get i u)
         | |- context [match json.Unmarshal ?d with _ => _ end] => destruct (json.Unmarshal d)
         end.

Lemma api_bracketed (environ : os.Environment) (h : api.Handler) (i : Inputs) (s : St) :
  In h [api.Root; api.Slow; api.Protected] ->
  bracketed (trace (api.handler environ h i) s).
Proof.
  intros [<-|[<-|[<-|[]]]]; cbn [api.handler].
  - eexists [_]. split; reflexivity.
  - eexists [_]. split; reflexivity.
  - unfold api.handleProtected. branches; exists []; split; reflexivity.
Qed.

Lemma api_untouched (environ : os.Environment) (h : api.Handler) (i : Inputs) (s : St) :
  ~ In h [api.Root; api.Slow; api.Protected] ->
  counterWrites (trace (api.handler environ h i) s) = [].
Proof.
  intros Hn. destruct h; cbn [api.handler]; try (exfalso; apply Hn; cbn; tauto);
    try reflexivity.
  - destruct s as [[|] [|] n]; reflexivity.
  - unfold api.handleProbe. branches; reflexivity.
Qed.

Lemma api_restores (environ : os.Environment) (h : api.Handler) (i : Inputs) (s : St) :
  int64 (inflight s) ->
  inflight (snd (run (api.handler environ h i) s)) = inflight s.
Proof.
  intros Hs. pose proof (wrap64_restore _ Hs) as Hw.
  destruct h; cbn [api.handler]; try reflexivity; try exact Hw.
  - destruct s as [[|] [|] n]; reflexivity.
  - unfold api.handleProtected. branches; exact Hw.
  - unfold api.handleProbe. branches; reflexivity.
Qed.

Lemma bracketed_touched (t : list Event) : bracketed t -> counterWrites t <> [].
Proof. intros (mid & -> & _). discriminate. Qed.

(** C4, amended.  In the api of src/svc/api/main.go the in-flight counter
    is incremented on entry and decremented on exit of exactly three
    handlers, those of GET /, GET /slow and GET /protected; in the earlier
    api of src/unnamed/part_001, which has no GET /protected, of exactly
    the first two.  Every other handler performs no operation that changes
    the counter, and every handler leaves the counter at the value it
    found. *)
Theorem C4_inflight_bracket (environ : os.Environment) (i : Inputs) (s : St) :
  int64 (inflight s) ->
  let touching := [api.Root; api.Slow; api.Protected] in
  let touching_001 := [api_part_001.Root; api_part_001.Slow] in
  (forall h, touches (api.handler environ h) <-> In h touching)
  /\ (forall h, In h touching -> bracketed (trace (api.handler environ h i) s))
  /\ (forall h, ~ In h touching -> counterWrites (trace (api.handler environ h i) s) = [])
  /\ (forall h, inflight (snd (run (api.handler environ h i) s)) = inflight s)
  /\ (forall h, touches (api_part_001.handler environ h) <-> In h touching_001)
  /\ (forall h, In h touching_001 ->
        bracketed (trace (api_part_001.handler environ h i) s))
  /\ (forall h, ~ In h touching_001 ->
        counterWrites (trace (api_part_001.handler environ h i) s) = [])
  /\ (forall h, inflight (snd (run (api_part_001.handler environ h i) s)) = inflight s).
Proof.
  intros Hs touching touching_001.
  assert (Hdec : forall h, In h touching \/ ~ In h touching).
  { intros []; cbn; intuition congruence. }
  assert (Hdec1 : forall h, In h touching_001 \/ ~ In h touching_001).
  { intros []; cbn; intuition congruence. }
  assert (Hin : forall h, In h touching_001 ->
            exists h', In h' touching
                       /\ api_part_001.handler environ h = api.handler environ h').
  { intros h [<-|[<-|[]]]; [exists api.Root | exists api.Slow]; cbn; auto. }
  assert (Hout : forall h, ~ In h touching_001 ->
            exists h', ~ In h' touching
                       /\ api_part_001.handler environ h = api.handler environ h').
  { intros [] Hn; try (exfalso; apply Hn; cbn; tauto);
      [exists api.Healthz | exists api.HealthzFail | exists api.HealthzRecover];
      cbn; intuition congruence. }
  assert (Hall : forall h, exists h',
            api_part_001.handler environ h = api.handler environ h').
  { intros h. destruct (Hdec1 h) as [H|H];
      [destruct (Hin h H) as (h' & _ & E) | destruct (Hout h H) as (h' & _ & E)];
      eauto. }
  repeat split.
  - intros (i' & s' & Ht). destruct (Hdec h) as [|Hn]; [assumption|].
    exfalso. apply Ht. apply api_untouched, Hn.
  - intros Hh. exists i, s. apply bracketed_touched, api_bracketed, Hh.
  - intros h; apply api_bracketed.
  - intros h; apply api_untouched.
  - intros h; apply api_restores, Hs.
  - intros (i' & s' & Ht). destruct (Hdec1 h) as [|Hn]; [assumption|].
    exfalso. apply Ht. destruct (Hout h Hn) as (h' & Hn' & ->).
    apply api_untouched, Hn'.
  - intros Hh. exists i, s. destruct (Hin h Hh) as (h' & Hh' & ->).
    apply bracketed_touched, api_bracketed, Hh'.
  - intros h Hh. destruct (Hin h Hh) as (h' & Hh' & ->). apply api_bracketed, Hh'.
  - intros h Hh. destruct (Hout h Hh) as (h' & Hh' & ->). apply api_untouched, Hh'.
  - intros h. destruct (Hall h) as (h' & ->). apply api_restores, Hs.
Qed.

Lemma C4_inflight_bracket_witness :
  int64 (inflight zero)
  /\ bracketed (trace (api.handler [] api.Protected (sample "GET" "/protected" ∅)) zero)
  /\ inflight (snd (run (api.handler [] api.Slow (sample "GET" "/slow" ∅)) zero)) = 0.
Proof.
  assert (H : int64 (inflight zero)) by (unfold int64; cbn; lia).
  pose proof (C4_inflight_bracket [] (sample "GET" "/protected" ∅) zero H) as Hp.
  pose proof (C4_inflight_bracket [] (sample "GET" "/slow" ∅) zero H) as Hq.
  cbn zeta in Hp, Hq.
  split; [exact H|]. split.
  - apply Hp. cbn. tauto.
  - apply Hq.
Defined.

(** ** Shutdown *)

Import shutdown.

(** C3, as the spec has it, fails on the api: its goroutine does not sleep
    a fixed time.  It exits at once when no request is in flight, and
    otherwise sleeps 100ms at a time for as long as requests are in flight,
    up to ten seconds, after which it exits with code 1. *)
Lemma C3_api_sleep_is_not_fixed :
  shutdown.api 101 os.SIGTERM idle = Some [Exited 0]
  /\ shutdown.api 101 os.SIGTERM busy
     = Some [Slept 100000000; Slept 100000000; Slept 100000000; Exited 0]
  /\ shutdown.api 101 os.SIGTERM stuck = Some (repeat (Slept 100000000) 100 ++ [Exited 1])
  /\ ~ (exists d code, forall env,
          shutdown.api 101 os.SIGTERM env = Some [Slept d; Exited code]).
Proof.
  repeat split; try reflexivity.
  intros (d & code & H). specialize (H idle). discriminate.
Qed.

Lemma elapsed_lower (env : Drain) (n : nat) :
  100 * time.Millisecond * Z.of_nat n <= elapsed env n.
Proof.
  induction n as [|n IH]; [reflexivity|].
  cbn [elapsed]. unfold time.Millisecond in *. lia.
Qed.

Lemma drain_spec (env : Drain) (fuel : nat) :
  forall turn,
    deadline env - elapsed env turn <= 100 * time.Millisecond * (Z.of_nat fuel - 1) ->
    (1 <= fuel)%nat ->
    exists n code,
      (turn <= n)%nat
      /\ drain fuel env turn (elapsed env turn)
         = Some (repeat (Slept (100 * time.Millisecond)) (n - turn) ++ [Exited code])
      /\ (forall k, (turn <= k < n)%nat ->
            0 < loaded env k /\ elapsed env k < deadline env)
      /\ (code = 0 /\ loaded env n <= 0
          \/ code = 1 /\ 0 < loaded env n /\ deadline env <= elapsed env n).
Proof.
  induction fuel as [|fuel IH]; intros turn Hfuel Hpos; [lia|].
  cbn [drain].
  destruct (0 <? loaded env turn) eqn:Hload.
  - apply Z.ltb_lt in Hload.
    destruct (deadline env <=? elapsed env turn) eqn:Hdead.
    + apply Z.leb_le in Hdead. exists turn, 1.
      rewrite Nat.sub_diag. repeat split; auto; try lia.
    + apply Z.leb_gt in Hdead.
      change (elapsed env turn + 100 * time.Millisecond + Z.of_nat (overshoot env turn))
        with (elapsed env (S turn)).
      assert (Hstep : elapsed env turn + 100 * time.Millisecond <= elapsed env (S turn))
        by (cbn [elapsed]; lia).
      unfold time.Millisecond in *.
      destruct (IH (S turn)) as (n & code & Hn & Hrun & Hbefore & Hend); [lia | lia |].
      exists n, code. split; [lia|]. split; [|split; [|exact Hend]].
      * rewrite Hrun. cbn [option_map].
        replace (n - turn)%nat with (S (n - S turn)) by lia. reflexivity.
      * intros k Hk. destruct (Nat.eq_dec k turn) as [->|Hne]; [lia|].
        apply Hbefore. lia.
  - apply Z.ltb_ge in Hload. exists turn, 0.
    rewrite Nat.sub_diag. repeat split; auto; try lia.
Qed.

(** C3, amended.  On a shutdown signal the worker's goroutine sleeps two
    seconds and exits with code 0.  The api's goroutine reads the in-flight
    counter; while it is positive and the ten-second deadline has not fired
    it sleeps 100ms and reads again; it exits with code 0 as soon as it
    reads a counter that is not positive (at once, if that is the first
    reading) and with code 1 if the deadline fires first.  It always
    exits: the sleeps it makes fit in the time the deadline takes to
    fire, plus one. *)
Theorem C3_shutdown (sig : os.Signal) (env : Drain) (fuel : nat) :
  deadline env <= 100 * time.Millisecond * (Z.of_nat fuel - 1) ->
  shutdown.worker sig = [Slept (2 * time.Second); Exited 0]
  /\ exists n code,
       shutdown.api fuel sig env
       = Some (repeat (Slept (100 * time.Millisecond)) n ++ [Exited code])
       /\ 100 * time.Millisecond * Z.of_nat n < deadline env + 100 * time.Millisecond
       /\ (forall k, (k < n)%nat -> 0 < loaded env k /\ elapsed env k < deadline env)
       /\ (code = 0 /\ loaded env n <= 0
           \/ code = 1 /\ 0 < loaded env n /\ deadline env <= elapsed env n).
Proof.
  intros Hfuel. split; [reflexivity|].
  assert (Hd : 10 * time.Second <= deadline env) by (unfold deadline; lia).
  destruct (drain_spec env fuel 0) as (n & code & _ & Hrun & Hbefore & Hend).
  { cbn [elapsed]. lia. }
  { unfold time.Second, time.Millisecond in *. lia. }
  exists n, code. rewrite Nat.sub_0_r in Hrun.
  split; [exact Hrun|]. split; [|split; [|exact Hend]].
  - destruct n as [|n]; [unfold time.Second, time.Millisecond in *; lia|].
    destruct (Hbefore n) as [_ Hlt]; [lia|].
    pose proof (elapsed_lower env n) as Hlow.
    unfold time.Millisecond in *. lia.
  - intros k Hk. apply Hbefore. lia.
Qed.

Lemma C3_shutdown_witness :
  deadline busy <= 100 * time.Millisecond * (Z.of_nat 101 - 1)
  /\ shutdown.worker os.SIGTERM = [Slept (2 * time.Second); Exited 0]
  /\ exists n code,
       shutdown.api 101 os.SIGTERM busy
       = Some (repeat (Slept (100 * time.Millisecond)) n ++ [Exited code])
       /\ 100 * time.Millisecond * Z.of_nat n < deadline busy + 100 * time.Millisecond
       /\ (forall k, (k < n)%nat -> 0 < loaded busy k /\ elapsed busy k < deadline busy)
       /\ (code = 0 /\ loaded busy n <= 0
           \/ code = 1 /\ 0 < loaded busy n /\ deadline busy <= elapsed busy n).
Proof.
  assert (H : deadline busy <= 100 * time.Millisecond * (Z.of_nat 101 - 1))
    by (vm_compute; discriminate).
  split; [exact H|]. exact (C3_shutdown os.SIGTERM busy 101 H).
Defined.

(** ** Readiness *)

Import process.

Lemma next_quiet {A : Type} (p p' : Prog A) (s s' : St) (e : atomic.Event) :
  quiet p -> next p s = Some (e, p', s') ->
  quiet p' /\ ready s' = ready s /\ isReadyStore e = false.
Proof.
  destruct p as [a|X op k]; cbn; [discriminate|].
  intros [Hop Hk] Hnext.
  destruct op; cbn in Hop, Hnext; try discriminate;
    injection Hnext as <- <- <-; cbn; auto.
Qed.

Lemma next_settled {A : Type} (good : A -> Prop) (p p' : Prog A) (s s' : St)
    (e : atomic.Event) :
  settled good p -> ready s = true -> next p s = Some (e, p', s') ->
  settled good p'.
Proof.
  destruct p as [a|X op k]; cbn; [discriminate|].
  intros Hk Hready Hnext.
  destruct op; cbn in Hnext; injection Hnext as <- <- <-; apply Hk; cbn; auto.
Qed.

Ltac quiet_tac :=
  repeat first [ progress cbn
               | match goal with
                 | |- True => exact I
                 | |- _ /\ _ => split
                 | |- _ = _ => reflexivity
                 | |- forall _ : bool, _ => intros []
                 | |- forall _, _ => intro
                 end ].

Lemma handlers_quiet (name : ServiceName) (environ : os.Environment) (i : Inputs) :
  quiet (serve (routes (service name environ)) (handlerOf (service name environ)) i).
Proof.
  unfold serve. destruct (mux.route _ _ _) as [h| |]; [|exact I|exact I].
  revert name h. apply (service_cases (fun name => forall h, quiet (handlerOf _ h i)));
    intros []; cbn [service handlerOf api.handler worker.handler];
    try solve [quiet_tac].
  - unfold api.handleProtected. branches; quiet_tac.
  - unfold api.handleProbe. branches; quiet_tac.
  - unfold worker.handleProbe. branches; quiet_tac.
Qed.

Section readiness.

Variable name : ServiceName.
Variable environ : os.Environment.

#[local] Abbreviation svc := (service name environ).

Lemma boot_inv : Inv name 0 (boot svc).
Proof.
  split; [lia | | reflexivity].
  exists []. split; [|constructor].
  destruct name; reflexivity.
Qed.

Lemma readyStores_app (l l' : list (nat * atomic.Event)) :
  readyStores (l ++ l') = readyStores l ++ readyStores l'.
Proof. apply List.filter_app. Qed.

Lemma choose_inv (k : nat) (P P' : Process) (c : Choice) (l : list (nat * atomic.Event)) :
  Inv name k P -> choose svc P c = Some (P', l) ->
  exists k', Inv name k' P'
             /\ ((k' = k /\ readyStores l = [])
                 \/ (k = 0%nat /\ k' = 1%nat /\ readyStores l = [])
                 \/ (k = 1%nat /\ k' = 2%nat /\ readyStores l = [(0%nat, EStoreReady true)])).
Proof.
  intros [Hk (rest & Htasks & Hrest) Hready] Hc.
  destruct c as [i|n]; cbn in Hc.
  - injection Hc as <- <-. exists k. split; [|auto].
    split; cbn; [exact Hk | | exact Hready].
    exists (rest ++ [Serving (serve (routes svc) (handlerOf svc) i)]).
    split; [rewrite Htasks; reflexivity|].
    apply Forall_app. split; [exact Hrest|].
    constructor; [apply handlers_quiet | constructor].
  - rewrite Htasks in Hc. destruct n as [|m]; cbn in Hc.
    + destruct k as [|[|[|k]]]; cbn in Hc; try discriminate.
      * injection Hc as <- <-. exists 1%nat. split; [|auto].
        split; cbn; [lia | | exact Hready].
        exists rest. auto.
      * injection Hc as <- <-. exists 2%nat. split; [|auto].
        split; cbn; [lia | | reflexivity].
        exists rest. auto.
    + destruct (rest !! m) as [t|] eqn:Hm; [|discriminate].
      pose proof (Forall_lookup_1 _ _ _ _ Hrest Hm) as Ht.
      destruct t as [g|p]; [contradiction|]. cbn in Ht, Hc.
      destruct (next p (store P)) as [[[e p'] s']|] eqn:Hnext; [|discriminate].
      injection Hc as <- <-.
      destruct (next_quiet _ _ _ _ _ Ht Hnext) as (Hq & Hr & He).
      exists k. split.
      * split; cbn; [exact Hk | | congruence].
        exists (<[m := Serving p']> rest). split; [reflexivity|].
        apply Forall_insert; assumption.
      * left. split; [reflexivity|]. unfold readyStores. cbn. rewrite He. reflexivity.
Qed.

Lemma exec_inv (cs : list Choice) :
  forall (k : nat) (P P' : Process) (log : list (nat * atomic.Event)),
    Inv name k P -> exec svc P cs = Some (P', log) ->
    exists k', (k <= k')%nat /\ Inv name k' P'
               /\ readyStores log
                  = if (k <? 2)%nat && (k' =? 2)%nat then [(0%nat, EStoreReady true)] else [].
Proof.
  induction cs as [|c cs IH]; intros k P P' log HP Hexec; cbn in Hexec.
  - injection Hexec as <- <-. exists k. split; [lia|]. split; [exact HP|].
    destruct k as [|[|[|k]]]; reflexivity.
  - destruct (choose svc P c) as [[P1 l]|] eqn:Hc; [|discriminate].
    destruct (exec svc P1 cs) as [[P2 log']|] eqn:Hrest; [|discriminate].
    injection Hexec as <- <-.
    destruct (choose_inv _ _ _ _ _ HP Hc) as (k1 & HP1 & Hl).
    destruct (IH _ _ _ _ HP1 Hrest) as (k2 & Hle & HP2 & Hlog).
    exists k2. rewrite readyStores_app, Hlog.
    pose proof (inv_stage _ _ _ HP2) as Hk2.
    destruct Hl as [(-> & ->)|[(-> & -> & ->)|(-> & -> & ->)]].
    + auto.
    + split; [lia|]. split; [exact HP2|].
      destruct k2 as [|[|[|k2]]]; try reflexivity; lia.
    + split; [lia|]. split; [exact HP2|].
      destruct k2 as [|[|[|k2]]]; try reflexivity; lia.
Qed.

Lemma choose_settled (good : shared.Written -> Prop) (P P' : Process) (c : Choice)
    (l : list (nat * atomic.Event)) (n : nat) (p : Prog shared.Written) :
  ready (store P) = true ->
  tasks P !! n = Some (Serving p) -> settled good p ->
  choose svc P c = Some (P', l) ->
  exists p', tasks P' !! n = Some (Serving p') /\ settled good p'.
Proof.
  intros Hready Hn Hp Hc. destruct c as [i|m]; cbn in Hc.
  - injection Hc as <- <-. exists p. split; [|exact Hp].
    cbn. rewrite lookup_app_l; [exact Hn|]. eapply lookup_lt_Some, Hn.
  - destruct (tasks P !! m) as [t|] eqn:Hm; [|discriminate].
    destruct (advance t (store P)) as [[[e t'] s']|] eqn:Hadv; [|discriminate].
    injection Hc as <- <-. cbn.
    destruct (Nat.eq_dec m n) as [->|Hne].
    + rewrite Hn in Hm. injection Hm as <-. cbn in Hadv.
      destruct (next p (store P)) as [[[e' p'] s'']|] eqn:Hnext; [|discriminate].
      injection Hadv as <- <- <-.
      exists p'. split; [|eapply next_settled; eassumption].
      apply list_lookup_insert_eq. eapply lookup_lt_Some, Hn.
    + exists p. split; [|exact Hp].
      rewrite list_lookup_insert_ne by exact Hne. exact Hn.
Qed.

Lemma exec_settled (good : shared.Written -> Prop) (cs : list Choice) :
  forall (P P' : Process) (log : list (nat * atomic.Event)) (n : nat)
         (p : Prog shared.Written),
    Inv name 2 P ->
    tasks P !! n = Some (Serving p) -> settled good p ->
    exec svc P cs = Some (P', log) ->
    exists p', tasks P' !! n = Some (Serving p') /\ settled good p'.
Proof.
  induction cs as [|c cs IH]; intros P P' log n p HP Hn Hp Hexec; cbn in Hexec.
  - injection Hexec as <- <-. eauto.
  - destruct (choose svc P c) as [[P1 l]|] eqn:Hc; [|discriminate].
    destruct (exec svc P1 cs) as [[P2 log']|] eqn:Hrest; [|discriminate].
    injection Hexec as <- <-.
    destruct (choose_settled good _ _ _ _ _ _ (inv_ready _ _ _ HP) Hn Hp Hc)
      as (p1 & Hn1 & Hp1).
    destruct (choose_inv _ _ _ _ _ HP Hc) as (k1 & HP1 & Hl).
    assert (k1 = 2%nat) as -> by (destruct Hl as [[? _]|[[? _]|[? _]]]; lia).
    eapply IH; eassumption.
Qed.

End readiness.

Lemma healthz_settled (name : ServiceName) (environ : os.Environment) (i : Inputs) :
  settled healthyOrUnhealthy (healthz (service name environ) i).
Proof.
  destruct name; cbn; intros r ->; cbn; intros [|] _; cbn; [left|right|left|right];
    reflexivity.
Qed.

(** C6. In both services the readiness flag is stored to exactly once, with
    true, by the startup goroutine after its fixed sleep; no handler stores
    to it.  So in every run of a process the flag is true exactly when
    that one store has happened, and from any state in which it is true on,
    it stays true, no further store to it happens, and a /healthz handler
    that starts there never answers not_ready: whenever it returns, it
    answers unhealthy or healthy. *)
Theorem C6_ready_set_once (name : ServiceName) (environ : os.Environment)
    (cs : list Choice) (P : Process) (log : list (nat * atomic.Event)) :
  let svc := service name environ in
  exec svc (boot svc) cs = Some (P, log) ->
  trace (startup svc) zero = [ESleep (startupDelay name); EStoreReady true]
  /\ (forall i, quiet (serve (routes svc) (handlerOf svc) i))
  /\ readyStores log = (if ready (store P) then [(0%nat, EStoreReady true)] else [])
  /\ (ready (store P) = true ->
      forall cs' P' log',
        exec svc P cs' = Some (P', log') ->
        ready (store P') = true
        /\ readyStores log' = []
        /\ forall n i w,
             tasks P !! n = Some (Serving (healthz svc i)) ->
             tasks P' !! n = Some (Serving (Ret w)) ->
             healthyOrUnhealthy w /\ member "status" w <> Some "not_ready").
Proof.
  intros svc Hexec.
  split; [destruct name; reflexivity|].
  split; [intros i; apply handlers_quiet|].
  destruct (exec_inv name environ cs _ _ _ _ (boot_inv name environ) Hexec)
    as (k & _ & HP & Hlog).
  pose proof (inv_ready _ _ _ HP) as Hready.
  split; [rewrite Hlog, Hready; reflexivity|].
  intros Htrue cs' P' log' Hexec'.
  assert (k = 2%nat) as ->.
  { rewrite Htrue in Hready. symmetry in Hready. apply Nat.eqb_eq in Hready. exact Hready. }
  destruct (exec_inv name environ cs' _ _ _ _ HP Hexec') as (k' & Hle & HP' & Hlog').
  pose proof (inv_stage _ _ _ HP') as Hk'.
  assert (k' = 2%nat) as -> by lia.
  split; [exact (inv_ready _ _ _ HP')|]. split; [exact Hlog'|].
  intros n i w Hn Hn'.
  destruct (exec_settled name environ healthyOrUnhealthy cs' _ _ _ _ _ HP Hn
              (healthz_settled name environ i) Hexec') as (p' & Hp' & Hgood).
  rewrite Hn' in Hp'. injection Hp' as <-. cbn in Hgood.
  split; [exact Hgood|].
  destruct Hgood as [H|H]; injection H as _ ->; discriminate.
Qed.

Lemma C6_ready_set_once_witness :
  exists P log,
    exec (service Api []) (boot (service Api [])) warmThenProbe = Some (P, log)
    /\ ready (store P) = true
    /\ readyStores log = [(0%nat, EStoreReady true)].
Proof.
  eexists _, _. split; [vm_compute; reflexivity|]. split; [reflexivity|].
  exact (proj1 (proj2 (proj2 (C6_ready_set_once Api [] warmThenProbe _ _ eq_refl)))).
Defined.

(** * Further properties *)

(** ** The command *)

(** X1. [main] of the command runs the api exactly when its first argument
    is api and the worker exactly when it is worker, whatever arguments
    follow; with no argument or any other first argument it writes a
    non-empty line to standard error and exits with code 1. *)
Theorem cmd_main_dispatch (Args : list string) :
  (cmd.main Args = cmd.RunApi <-> Args !! 1%nat = Some "api")
  /\ (cmd.main Args = cmd.RunWorker <-> Args !! 1%nat = Some "worker")
  /\ (Args !! 1%nat <> Some "api" -> Args !! 1%nat <> Some "worker" ->
      exists msg, cmd.main Args = cmd.Exit msg 1 /\ msg <> "").
Proof.
  destruct Args as [|a0 [|a1 rest]]; unfold cmd.main; cbn.
  - repeat split; try discriminate. intros _ _. eexists. split; [reflexivity|discriminate].
  - repeat split; try discriminate. intros _ _. eexists. split; [reflexivity|discriminate].
  - destruct (String.eqb_spec a1 "api") as [->|Hapi].
    + repeat split; try discriminate; congruence.
    + destruct (String.eqb_spec a1 "worker") as [->|Hworker].
      * repeat split; try discriminate; congruence.
      * repeat split; try discriminate; try congruence.
        intros _ _. eexists. split; [reflexivity|discriminate].
Qed.

(** ** Health after a toggle *)

(** X2. On either service, a health check that follows POST /healthz/fail
    answers 503 unhealthy and one that follows POST /healthz/recover
    answers 200 healthy, provided the service is ready; while it is not
    ready the health check answers 503 not_ready after either.  In any
    state the health check answers 200 exactly when the service is ready
    and failure is not forced. *)
Theorem healthz_after_toggle (name : ServiceName) (environ : os.Environment)
    (i j : Inputs) (s : St) :
  let svc := service name environ in
  let check := fun s => fst (run (healthz svc j) s) in
  (shared.Code (check (snd (run (healthzFail svc i) s))),
   member "status" (check (snd (run (healthzFail svc i) s))))
  = (if ready s then (503, Some "unhealthy") else (503, Some "not_ready"))
  /\ (shared.Code (check (snd (run (healthzRecover svc i) s))),
      member "status" (check (snd (run (healthzRecover svc i) s))))
     = (if ready s then (200, Some "healthy") else (503, Some "not_ready"))
  /\ (shared.Code (check s) = 200 <-> ready s = true /\ forceFail s = false).
Proof.
  revert name. apply service_cases; destruct s as [[|] [|] n]; cbn;
    repeat split; intros; try reflexivity; try discriminate;
    match goal with H : _ /\ _ |- _ => destruct H; discriminate end.
Qed.

(** ** The shape of the answers *)

Ltac flags s := destruct s as [[|] [|] ?].


(** ** The environment dump *)

Lemma insert_Permutation (x : string) (l : list string) :
  Permutation (sort.insert x l) (x :: l).
Proof.
  induction l as [|y l IH]; cbn; [reflexivity|].
  destruct (String.leb x y); [reflexivity|].
  rewrite IH. apply perm_swap.
Qed.

Lemma Strings_Permutation (l : list string) : Permutation (sort.Strings l) l.
Proof.
  induction l as [|x l IH]; cbn; [reflexivity|].
  rewrite insert_Permutation. constructor. exact IH.
Qed.

(** The map GET /env builds from the sorted entries. *)
Local Abbreviation collect :=
  (foldl (fun (vars : gmap string string) (e : string) =>
            let '(k, v, _) := strings.Cut e "=" in <[k := v]> vars)).

Lemma collect_other (l : list string) :
  forall (m : gmap string string) (k : string),
    (forall e, In e l -> variable e <> k) -> collect m l !! k = m !! k.
Proof.
  induction l as [|a l IH]; intros m k Hk; cbn; [reflexivity|].
  rewrite IH by (intros e He; apply Hk; right; exact He).
  pose proof (Hk a (or_introl eq_refl)) as Ha. unfold variable in Ha.
  destruct (strings.Cut a "=") as [[k' v'] b']. cbn in Ha.
  apply lookup_insert_ne. exact Ha.
Qed.

Lemma collect_Some (l : list string) :
  forall (m : gmap string string) (k v : string),
    collect m l !! k = Some v ->
    m !! k = Some v \/ exists e, In e l /\ fst (strings.Cut e "=") = (k, v).
Proof.
  induction l as [|a l IH]; intros m k v H; cbn in H; [left; exact H|].
  destruct (IH _ _ _ H) as [Hm|(e & He & Hc)].
  - destruct (strings.Cut a "=") as [[k' v'] b'] eqn:Ha.
    destruct (String.eqb_spec k' k) as [->|Hne].
    + rewrite lookup_insert_eq in Hm. injection Hm as ->.
      right. exists a. split; [left; reflexivity|]. rewrite Ha. reflexivity.
    + rewrite lookup_insert_ne in Hm by exact Hne. left. exact Hm.
  - right. exists e. split; [right; exact He | exact Hc].
Qed.

Lemma collect_set (l : list string) :
  forall (m : gmap string string) (e k : string),
    In e l -> variable e = k -> collect m l !! k <> None.
Proof.
  induction l as [|a l IH]; intros m e k Hin Hk Hnone; [destruct Hin|].
  cbn in Hnone.
  destruct (in_dec string_dec k (map variable l)) as [Hkl|Hkl].
  - apply in_map_iff in Hkl as (e' & He' & Hin'). eapply IH; eassumption.
  - destruct Hin as [->|Hin].
    + rewrite collect_other in Hnone.
      * unfold variable in Hk. destruct (strings.Cut e "=") as [[k' v'] b'].
        cbn in Hk. subst k'. rewrite lookup_insert_eq in Hnone. discriminate.
      * intros e' Hin' He'. apply Hkl. apply in_map_iff. eauto.
    + apply Hkl. apply in_map_iff. eauto.
Qed.

Lemma collect_unique (l : list string) :
  forall (m : gmap string string) (e k v : string) (b : bool),
    List.NoDup (map variable l) -> In e l -> strings.Cut e "=" = (k, v, b) ->
    collect m l !! k = Some v.
Proof.
  induction l as [|a l IH]; intros m e k v b Hnd Hin Hcut; [destruct Hin|].
  cbn in Hnd. apply List.NoDup_cons_iff in Hnd as [Hfresh Hnd].
  destruct Hin as [->|Hin]; cbn.
  - rewrite collect_other.
    + rewrite Hcut. apply lookup_insert_eq.
    + intros e' He' Hk. apply Hfresh. apply in_map_iff.
      exists e'. split; [|exact He']. unfold variable at 2. rewrite Hcut. exact Hk.
  - eapply IH; eassumption.
Qed.

Lemma Getenv_unique (environ : os.Environment) (e k v : string) :
  List.NoDup (map variable environ) -> In e environ ->
  strings.Cut e "=" = (k, v, true) -> os.Getenv environ k = v.
Proof.
  induction environ as [|a l IH]; intros Hnd Hin Hcut; [destruct Hin|].
  cbn in Hnd. apply List.NoDup_cons_iff in Hnd as [Hfresh Hnd].
  cbn. destruct Hin as [->|Hin].
  - rewrite Hcut. cbn. rewrite String.eqb_refl. reflexivity.
  - destruct (strings.Cut a "=") as [[k' v'] b'] eqn:Ha.
    destruct (b' && String.eqb k' k) eqn:Hb; [|apply IH; assumption].
    apply andb_true_iff in Hb as [_ Hk]. apply String.eqb_eq in Hk. subst k'.
    exfalso. apply Hfresh. apply in_map_iff. exists e. split; [|exact Hin].
    unfold variable. rewrite Hcut, Ha. reflexivity.
Qed.

(** X4. GET /env of the api answers 200 with the variables of the
    environment and nothing else, whatever the request and without
    touching the store: a name is a member of the answer exactly when some
    entry of the environment sets it (an entry without an equals sign sets
    its whole text, to the empty string), and the value of a member is
    the value of such an entry. *)
Theorem env_shows_the_environment (environ : os.Environment) (i : Inputs) (s : St)
    (k : string) :
  let w := fst (run (api.handleEnv environ i) s) in
  snd (run (api.handleEnv environ i) s) = s
  /\ shared.Code w = 200
  /\ (member k w <> None <-> exists e, In e environ /\ variable e = k)
  /\ (forall v, member k w = Some v ->
        exists e, In e environ /\ fst (strings.Cut e "=") = (k, v)).
Proof.
  cbn zeta. unfold member. cbn.
  set (vars := collect ∅ (sort.Strings environ)).
  rewrite lookup_fmap.
  replace (match json.JString <$> vars !! k with
           | Some (json.JString s0) => Some s0
           | _ => None
           end) with (vars !! k) by (destruct (vars !! k); reflexivity).
  assert (Hsome : forall v, vars !! k = Some v ->
            exists e, In e environ /\ fst (strings.Cut e "=") = (k, v)).
  { intros v Hv. destruct (collect_Some _ _ _ _ Hv) as [Hm|(e & He & Hc)].
    - rewrite lookup_empty in Hm. discriminate.
    - exists e. split; [|exact Hc].
      eapply Permutation_in; [apply Strings_Permutation | exact He]. }
  repeat split.
  - intros Hk. destruct (vars !! k) as [v|] eqn:Hv; [|exfalso; apply Hk; reflexivity].
    destruct (Hsome v eq_refl) as (e & He & Hc).
    exists e. split; [exact He|]. unfold variable. rewrite Hc. reflexivity.
  - intros (e & He & Hk).
    eapply collect_set; [|exact Hk].
    eapply Permutation_in; [symmetry; apply Strings_Permutation | exact He].
  - exact Hsome.
Qed.

(** X5. When no two entries of the environment set the same name, GET /env
    and [os.Getenv] agree: for every entry name=value of the environment
    with a name that is not empty, the answer of GET /env has the member
    name with that value, and [os.Getenv] returns that value for the
    name. *)
Theorem env_agrees_with_Getenv (environ : os.Environment) (i : Inputs) (s : St)
    (e k v : string) :
  List.NoDup (map variable environ) ->
  In e environ ->
  strings.Cut e "=" = (k, v, true) ->
  k <> "" ->
  member k (fst (run (api.handleEnv environ i) s)) = Some v
  /\ os.Getenv environ k = v.
Proof.
  intros Hnd Hin Hcut _. split; [|eapply Getenv_unique; eassumption].
  unfold member. cbn. rewrite lookup_fmap.
  rewrite (collect_unique _ ∅ e k v true); [reflexivity | | | exact Hcut].
  - eapply Permutation_NoDup; [|exact Hnd].
    apply Permutation_map. symmetry. apply Strings_Permutation.
  - eapply Permutation_in; [symmetry; apply Strings_Permutation | exact Hin].
Qed.

Lemma env_agrees_with_Getenv_witness :
  let environ := ["PORT=8080"; "HOME=/root"] in
  (List.NoDup (map variable environ)
   /\ In "PORT=8080" environ
   /\ strings.Cut "PORT=8080" "=" = ("PORT", "8080", true)
   /\ "PORT" <> "")
  /\ member "PORT" (fst (run (api.handleEnv environ (sample "GET" "/env" ∅)) zero))
     = Some "8080"
  /\ os.Getenv environ "PORT" = "8080".
Proof.
  assert (Hnd : List.NoDup (map variable ["PORT=8080"; "HOME=/root"])).
  { cbn. repeat constructor; cbn; intuition discriminate. }
  assert (Hin : In "PORT=8080" ["PORT=8080"; "HOME=/root"]) by (left; reflexivity).
  assert (Hk : "PORT" <> "") by discriminate.
  split; [split; [exact Hnd | split; [exact Hin | split; [reflexivity | exact Hk]]]|].
  exact (env_agrees_with_Getenv _ (sample "GET" "/env" ∅) zero _ _ _ Hnd Hin eq_refl Hk).
Defined.

(** ** Routing *)

Section mux_facts.

Context {H : Type}.
Variables (method path : string).


Lemma best_sound (m : mux.ServeMux H) :
  forall found p h,
    mux.best method path m found = Some (p, h) ->
    found = Some (p, h)
    \/ exists s, In (s, h) m /\ p = mux.parsePattern s
                 /\ mux.matchPath p path = true /\ mux.matchMethod p method = true.
Proof.
  induction m as [|[s h0] m IH]; intros found p h Hb; cbn in Hb; [left; exact Hb|].
  assert (Hrest : forall found', mux.best method path m found' = Some (p, h) ->
            found' = Some (p, h)
            \/ exists s', In (s', h) ((s, h0) :: m) /\ p = mux.parsePattern s'
                          /\ mux.matchPath p path = true
                          /\ mux.matchMethod p method = true).
  { intros found' Hb'. destruct (IH _ _ _ Hb') as [Hf|(s' & Hin & Hrest)]; [left; exact Hf|].
    right. exists s'. split; [right; exact Hin | exact Hrest]. }
  destruct (mux.matchPath _ path && mux.matchMethod _ method) eqn:Hm; [|apply Hrest, Hb].
  apply andb_true_iff in Hm as [Hmp Hmm].
  assert (Hnew : Some (mux.parsePattern s, h0) = Some (p, h) ->
            exists s', In (s', h) ((s, h0) :: m) /\ p = mux.parsePattern s'
                       /\ mux.matchPath p path = true /\ mux.matchMethod p method = true).
  { intros [= <- <-]. exists s. split; [left; reflexivity|]. auto. }
  destruct found as [[q hq]|].
  - destruct (mux.moreSpecific _ q).
    + destruct (Hrest _ Hb) as [Hf|Hf]; [right; apply Hnew, Hf | right; exact Hf].
    + apply Hrest, Hb.
  - destruct (Hrest _ Hb) as [Hf|Hf]; [right; apply Hnew, Hf | right; exact Hf].
Qed.


Lemma route_Handle (m : mux.ServeMux H) (h : H) :
  mux.route m method path = mux.Handle h ->
  exists s, In (s, h) m
            /\ mux.matchPath (mux.parsePattern s) path = true
            /\ mux.matchMethod (mux.parsePattern s) method = true.
Proof.
  unfold mux.route. destruct (mux.best method path m None) as [[p h']|] eqn:Hb.
  - intros [= ->]. destruct (best_sound _ _ _ _ Hb) as [Hf|(s & Hin & -> & Hrest)];
      [discriminate|]. exists s. auto.
  - destruct (existsb _ m); discriminate.
Qed.




(** Registrations that do not match the path change nothing. *)
Lemma best_app_other (m m' : mux.ServeMux H) :
  (forall s h, In (s, h) m' -> mux.matchPath (mux.parsePattern s) path = false) ->
  forall found, mux.best method path (m ++ m') found = mux.best method path m found.
Proof.
  intros Hno. induction m as [|[s h] m IH]; intros found; cbn.
  - induction m' as [|[s h] m' IH']; cbn; [reflexivity|].
    rewrite (Hno s h (or_introl eq_refl)). cbn.
    apply IH'. intros s' h' Hin. apply (Hno s' h'). right. exact Hin.
  - destruct (_ && _); [|apply IH].
    destruct found as [[q hq]|]; [destruct (mux.moreSpecific _ q)|]; apply IH.
Qed.

Lemma route_app_other (m m' : mux.ServeMux H) :
  (forall s h, In (s, h) m' -> mux.matchPath (mux.parsePattern s) path = false) ->
  mux.route (m ++ m') method path = mux.route m method path.
Proof.
  intros Hno. unfold mux.route. rewrite best_app_other by exact Hno.
  rewrite existsb_app.
  assert (He : existsb (fun sh => mux.matchPath (mux.parsePattern (fst sh)) path) m' = false).
  { apply not_true_is_false. intros He. apply existsb_exists in He as ([s h] & Hin & Hp).
    cbn in Hp. rewrite (Hno _ _ Hin) in Hp. discriminate. }
  rewrite He, orb_false_r. reflexivity.
Qed.

End mux_facts.

Lemma best_rename {H H' : Type} (f : H -> H') (method path : string) (m : mux.ServeMux H) :
  forall found,
    mux.best method path (map (rename f) m) (option_map (fun ph => (fst ph, f (snd ph))) found)
    = option_map (fun ph => (fst ph, f (snd ph))) (mux.best method path m found).
Proof.
  induction m as [|[s h] m IH]; intros found; cbn; [reflexivity|].
  destruct (_ && _); [|apply IH].
  destruct found as [[q hq]|]; cbn.
  - destruct (mux.moreSpecific _ q); [apply (IH (Some (_, h))) | apply (IH (Some (q, hq)))].
  - apply (IH (Some (_, h))).
Qed.

Lemma route_rename {H H' : Type} (f : H -> H') (method path : string) (m : mux.ServeMux H) :
  mux.route (map (rename f) m) method path
  = match mux.route m method path with
    | mux.Handle h => mux.Handle (f h)
    | mux.MethodNotAllowed => mux.MethodNotAllowed
    | mux.NotFound => mux.NotFound
    end.
Proof.
  unfold mux.route.
  pose proof (best_rename f method path m None) as Hb. cbn [option_map] in Hb.
  rewrite Hb.
  destruct (mux.best method path m None) as [[p h]|]; cbn; [reflexivity|].
  replace (existsb (fun sh => mux.matchPath (mux.parsePattern (fst sh)) path)
             (map (rename f) m))
    with (existsb (fun sh => mux.matchPath (mux.parsePattern (fst sh)) path) m).
  - destruct (existsb _ m); reflexivity.
  - clear Hb. induction m as [|[s h] m IH]; cbn; [reflexivity|]. rewrite IH. reflexivity.
Qed.



Ltac parse_patterns :=
  repeat match goal with
         | |- context [mux.parsePattern ?s] =>
             let p := eval vm_compute in (mux.parsePattern s) in
             change (mux.parsePattern s) with p
         end;
  cbn [mux.pmethod mux.ppath].

Ltac exact_paths :=
  unfold mux.matchPath; parse_patterns;
  repeat match goal with
         | |- context [mux.endsInSlash ?s] =>
             let b := eval vm_compute in (mux.endsInSlash s) in
             change (mux.endsInSlash s) with b
         end;
  cbv iota.

(** Going through the registrations of a table one by one. *)
Ltac registrations Hin :=
  cbn in Hin;
  repeat (destruct Hin as [Hin|Hin];
          [try discriminate Hin; injection Hin as <-; try subst |]);
  try contradiction.



(** ** What a request can change *)

Lemma match_exact (path pm pp : string) :
  mux.matchPath {| mux.pmethod := pm; mux.ppath := pp |} path = true ->
  mux.endsInSlash pp = false ->
  pp = path.
Proof.
  unfold mux.matchPath. cbn [mux.ppath]. intros Hm He. rewrite He in Hm.
  apply String.eqb_eq. exact Hm.
Qed.

Lemma match_post (method pp : string) :
  mux.matchMethod {| mux.pmethod := "POST"; mux.ppath := pp |} method = true ->
  method = "POST".
Proof.
  unfold mux.matchMethod. cbn [mux.pmethod].
  change (String.eqb "POST" "") with false. change (String.eqb "POST" "GET") with false.
  cbn [orb andb]. rewrite orb_false_r. intros Hm. symmetry. apply String.eqb_eq. exact Hm.
Qed.

(** X7. Serving a request never changes the readiness flag, on either
    service, whatever the request.  It changes the forced-failure flag only
    if the request is a POST to /healthz/fail, which leaves the flag true,
    or a POST to /healthz/recover, which leaves it false: no GET and no
    other path can toggle the health of a service. *)
Theorem only_the_toggles_change_health (name : ServiceName) (environ : os.Environment)
    (i : Inputs) (s : St) :
  let svc := service name environ in
  let s' := snd (run (serve (routes svc) (handlerOf svc) i) s) in
  ready s' = ready s
  /\ (forceFail s' <> forceFail s ->
      http.Method (request i) = "POST"
      /\ (http.Path (request i) = "/healthz/fail" /\ forceFail s' = true
          \/ http.Path (request i) = "/healthz/recover" /\ forceFail s' = false)).
Proof.
  cbn zeta. unfold serve.
  destruct (mux.route _ _ _) as [h| |] eqn:Hr; [|cbn; split; [reflexivity|congruence]..].
  destruct (route_Handle _ _ _ _ Hr) as (p & Hin & Hp & Hm). clear Hr.
  destruct name; cbn [service routes handlerOf] in *.
  - destruct h; cbn [api.handler].
    + cbn. split; [reflexivity|congruence].
    + flags s; cbn; split; try reflexivity; congruence.
    + registrations Hin. split; [reflexivity|]. intros _.
      revert Hp Hm. parse_patterns. intros Hp Hm.
      apply match_exact in Hp; [|reflexivity]. apply match_post in Hm.
      cbn. auto.
    + registrations Hin. split; [reflexivity|]. intros _.
      revert Hp Hm. parse_patterns. intros Hp Hm.
      apply match_exact in Hp; [|reflexivity]. apply match_post in Hm.
      cbn. auto.
    + cbn. split; [reflexivity|congruence].
    + unfold api.handleProtected. branches; cbn; split; try reflexivity; congruence.
    + cbn. split; [reflexivity|congruence].
    + unfold api.handleProbe. branches; cbn; split; try reflexivity; congruence.
  - destruct h; cbn [worker.handler].
    + flags s; cbn; split; try reflexivity; congruence.
    + registrations Hin. split; [reflexivity|]. intros _.
      revert Hp Hm. parse_patterns. intros Hp Hm.
      apply match_exact in Hp; [|reflexivity]. apply match_post in Hm.
      cbn. auto.
    + registrations Hin. split; [reflexivity|]. intros _.
      revert Hp Hm. parse_patterns. intros Hp Hm.
      apply match_exact in Hp; [|reflexivity]. apply match_post in Hm.
      cbn. auto.
    + cbn. split; [reflexivity|congruence].
    + unfold worker.handleProbe. branches; cbn; split; try reflexivity; congruence.
Qed.



(** ** Earlier and later versions *)

(** X9. The later version of each service extends the earlier one.  A
    request for a path other than /protected, /env and /probe is served by
    the api of src/svc/api/main.go with the same program as by the api of
    src/unnamed/part_001, and by the worker's [Run] with the same program
    as by the worker's [main]. *)
Theorem later_versions_extend (environ : os.Environment) (i : Inputs) :
  ~ In (http.Path (request i)) ["/protected"; "/env"; "/probe"] ->
  serve api.mux (api.handler environ) i
  = serve api_part_001.mux (api_part_001.handler environ) i
  /\ serve worker.mux (worker.handler environ) i
     = serve worker.mux_main (worker.handler environ) i.
Proof.
  intros Hout.
  assert (Hne : forall a, In a ["/protected"; "/env"; "/probe"] ->
            String.eqb a (http.Path (request i)) = false).
  { intros a Ha. apply String.eqb_neq. intros Heq. subst a. exact (Hout Ha). }
  unfold serve. split.
  - change api.mux
      with (map (rename later) api_part_001.mux
            ++ [("GET /protected", api.Protected); ("GET /env", api.Env);
                ("GET /probe", api.Probe)]).
    rewrite route_app_other, route_rename.
    + destruct (mux.route api_part_001.mux _ _) as [h| |]; try reflexivity.
      destruct h; reflexivity.
    + intros s h Hin. registrations Hin; exact_paths; apply Hne; cbn; tauto.
  - change worker.mux with (worker.mux_main ++ [("GET /probe", worker.Probe)]).
    rewrite route_app_other; [reflexivity|].
    intros s h Hin. registrations Hin. exact_paths. apply Hne. cbn. tauto.
Qed.

Lemma later_versions_extend_witness :
  let i := sample "GET" "/slow" ∅ in
  ~ In (http.Path (request i)) ["/protected"; "/env"; "/probe"]
  /\ serve api.mux (api.handler []) i
     = serve api_part_001.mux (api_part_001.handler []) i.
Proof.
  assert (H : ~ In "/slow" ["/protected"; "/env"; "/probe"]).
  { cbn. intros [Hp|[Hp|[Hp|[]]]]; discriminate Hp. }
  split; [exact H|].
  exact (proj1 (later_versions_extend [] (sample "GET" "/slow" ∅) H)).
Defined.

(** ** The in-flight counter of a running process *)

Lemma wrap64_add (a d : Z) : wrap64 (wrap64 a + d) = wrap64 (a + d).
Proof.
  unfold wrap64.
  replace ((a + 2 ^ 63) mod 2 ^ 64 - 2 ^ 63 + d + 2 ^ 63)
    with ((a + 2 ^ 63) mod 2 ^ 64 + d) by lia.
  rewrite Zplus_mod_idemp_l. f_equal. f_equal. lia.
Qed.

Lemma wrap64_small (z : Z) : int64 z -> wrap64 z = z.
Proof.
  unfold int64, wrap64.
  change (2 ^ 63) with 9223372036854775808.
  change (2 ^ 64) with 18446744073709551616.
  intros Hz. rewrite Z.mod_small by lia. lia.
Qed.

Lemma holds_held {A : Type} (p : Prog A) : forall n, holds n p -> held p = n.
Proof.
  induction p as [a|X op k IH]; intros n Hn; cbn in *; [congruence|].
  destruct Hn as [_ Hk]. rewrite (IH _ _ (Hk _)). lia.
Qed.

Lemma next_holds {A : Type} (p p' : Prog A) (s s' : St) (e : atomic.Event) (n : Z) :
  holds n p -> next p s = Some (e, p', s') ->
  exists d, (n + d = 0 \/ n + d = 1) /\ holds (n + d) p'
            /\ forall total, inflight s = wrap64 total -> inflight s' = wrap64 (total + d).
Proof.
  destruct p as [a|X op k]; cbn; [discriminate|].
  intros [Hn Hk] Hnext. exists (delta op).
  destruct op; cbn in Hnext; injection Hnext as <- <- <-;
    (split; [exact Hn|]); (split; [apply Hk|]); intros total Ht; cbn;
    rewrite ?Z.add_0_r; try exact Ht.
  rewrite Ht. apply wrap64_add.
Qed.

Ltac holds_tac :=
  repeat first [ progress cbn
               | match goal with
                 | |- True => exact I
                 | |- _ /\ _ => split
                 | |- _ \/ _ => first [left; reflexivity | right; reflexivity]
                 | |- _ = _ => reflexivity
                 | |- forall _ : bool, _ => intros []
                 | |- forall _, _ => intro
                 end ].

Lemma handlers_hold_nothing (name : ServiceName) (environ : os.Environment) (i : Inputs) :
  holds 0 (serve (routes (service name environ)) (handlerOf (service name environ)) i).
Proof.
  unfold serve. destruct (mux.route _ _ _) as [h| |]; [|reflexivity|reflexivity].
  revert name h. apply (service_cases (fun name => forall h, holds 0 (handlerOf _ h i)));
    intros []; cbn [service handlerOf api.handler worker.handler];
    try solve [holds_tac].
  - unfold api.handleProtected. branches; holds_tac.
  - unfold api.handleProbe. branches; holds_tac.
  - unfold worker.handleProbe. branches; holds_tac.
Qed.

Lemma inFlight_app (ts : list Task) (t : Task) :
  inFlight (ts ++ [t]) = inFlight ts + heldBy t.
Proof. unfold inFlight. induction ts as [|a ts IH]; cbn; [lia|]. rewrite IH. lia. Qed.

Lemma inFlight_insert (ts : list Task) :
  forall (n : nat) (t t' : Task),
    ts !! n = Some t -> inFlight (<[n := t']> ts) = inFlight ts - heldBy t + heldBy t'.
Proof.
  unfold inFlight.
  induction ts as [|a ts IH]; intros [|n] t t' Hn; cbn in *; try discriminate.
  - injection Hn as ->. lia.
  - rewrite (IH _ _ _ Hn). lia.
Qed.

Lemma advance_tidy (t t' : Task) (s s' : St) (e : atomic.Event) :
  tidy t -> advance t s = Some (e, t', s') ->
  tidy t'
  /\ forall total, inflight s = wrap64 total ->
                   inflight s' = wrap64 (total - heldBy t + heldBy t').
Proof.
  intros [Hb Hh] Hadv.
  destruct t as [p|p]; cbn in Hadv, Hb;
    destruct (next p s) as [[[e' p'] s'']|] eqn:Hnext; try discriminate;
    injection Hadv as <- <- <-;
    destruct (next_holds _ _ _ _ _ _ Hb Hnext) as (d & Hd & Hp' & Hs');
    pose proof (holds_held _ _ Hp') as Hheld;
    unfold tidy, balanced, heldBy; rewrite Hheld;
    (split; [split; [exact Hp' | exact Hd]|]);
    intros total Ht; rewrite (Hs' _ Ht); f_equal; lia.
Qed.

Section counting.

Variable name : ServiceName.
Variable environ : os.Environment.

#[local] Abbreviation svc := (service name environ).

Lemma boot_bal : Bal (boot svc).
Proof.
  split; [|destruct name; vm_compute; reflexivity].
  constructor; [|constructor]. destruct name; split; cbn; auto; holds_tac.
Qed.

Lemma choose_bal (P P' : Process) (c : Choice) (l : list (nat * atomic.Event)) :
  Bal P -> choose svc P c = Some (P', l) ->
  Bal P' /\ (length (tasks P') <= S (length (tasks P)))%nat.
Proof.
  intros [Ht Hs] Hc. destruct c as [i|n]; cbn in Hc.
  - injection Hc as <- <-. split; [split; cbn|].
    + apply Forall_app. split; [exact Ht|].
      constructor; [|constructor].
      pose proof (handlers_hold_nothing name environ i) as Hh.
      split; cbn; rewrite (holds_held _ _ Hh); auto.
    + rewrite inFlight_app. cbn.
      rewrite (holds_held _ _ (handlers_hold_nothing name environ i)).
      rewrite Z.add_0_r. exact Hs.
    + cbn. rewrite length_app. cbn. lia.
  - destruct (tasks P !! n) as [t|] eqn:Hn; [|discriminate].
    destruct (advance t (store P)) as [[[e t'] s']|] eqn:Hadv; [|discriminate].
    injection Hc as <- <-.
    destruct (advance_tidy _ _ _ _ _ (Forall_lookup_1 _ _ _ _ Ht Hn) Hadv) as [Ht' Hs'].
    split; [split; cbn|].
    + apply Forall_insert; assumption.
    + rewrite (inFlight_insert _ _ _ _ Hn). apply Hs'. exact Hs.
    + cbn. rewrite length_insert. lia.
Qed.

Lemma exec_bal (cs : list Choice) :
  forall (P P' : Process) (log : list (nat * atomic.Event)),
    Bal P -> exec svc P cs = Some (P', log) ->
    Bal P' /\ (length (tasks P') <= length (tasks P) + length cs)%nat.
Proof.
  induction cs as [|c cs IH]; intros P P' log HP Hexec; cbn in Hexec.
  - injection Hexec as <- <-. split; [exact HP | lia].
  - destruct (choose svc P c) as [[P1 l]|] eqn:Hc; [|discriminate].
    destruct (exec svc P1 cs) as [[P2 log']|] eqn:Hrest; [|discriminate].
    injection Hexec as <- <-.
    destruct (choose_bal _ _ _ _ HP Hc) as [HP1 Hlen1].
    destruct (IH _ _ _ HP1 Hrest) as [HP2 Hlen2].
    split; [exact HP2 | cbn; lia].
Qed.

End counting.

Lemma served_bound (rest : list Task) :
  Forall quietServing rest -> Forall tidy rest ->
  0 <= inFlight rest <= Z.of_nat (served rest) /\ (served rest <= length rest)%nat.
Proof.
  unfold served, inFlight.
  induction rest as [|t rest IH]; intros Hq Ht; [cbn; lia|].
  apply Forall_cons in Hq as [Hq Hqs]. apply Forall_cons in Ht as [[Hb Hh] Hts].
  destruct (IH Hqs Hts) as [Hin Hlen]. clear IH.
  destruct t as [g|p]; [contradiction|].
  cbn [fold_right List.filter length].
  destruct p as [w|X op k].
  - cbn [beingServed heldBy held]. lia.
  - cbn [beingServed length]. revert Hh. generalize (heldBy (Serving (Vis op k))).
    intros h Hh. lia.
Qed.

(** X10. In every run of a process of either service, over every
    interleaving of its requests, the in-flight counter is the number of
    increments its tasks hold at that moment: it is never negative, never
    more than the number of requests being served, and 0 whenever none is
    (as long as fewer than 2^63 steps have been taken, so that the counter
    cannot have wrapped). *)
Theorem inflight_counts_requests (name : ServiceName) (environ : os.Environment)
    (cs : list Choice) (P : Process) (log : list (nat * atomic.Event)) :
  exec (service name environ) (boot (service name environ)) cs = Some (P, log) ->
  Z.of_nat (length cs) < 2 ^ 63 ->
  inflight (store P) = inFlight (tasks P)
  /\ 0 <= inflight (store P) <= Z.of_nat (served (tasks P))
  /\ (served (tasks P) = 0%nat -> inflight (store P) = 0).
Proof.
  intros Hexec Hlen.
  destruct (exec_bal name environ cs _ _ _ (boot_bal name environ) Hexec)
    as [[Ht Hs] Hlen'].
  destruct (exec_inv name environ cs _ _ _ _ (boot_inv name environ) Hexec)
    as (k & _ & [Hk (rest & Htasks & Hrest) _] & _).
  rewrite Htasks in *. cbn in Hlen'.
  apply Forall_cons in Ht as [[Hb0 Hh0] Ht].
  destruct (served_bound rest Hrest Ht) as [Hbound Hserved].
  assert (Hstage : held (stage name k) = 0).
  { destruct name, k as [|[|k]]; reflexivity. }
  assert (Hsame : served (Goroutine (stage name k) :: rest) = served rest) by reflexivity.
  assert (Hin : inFlight (Goroutine (stage name k) :: rest) = inFlight rest).
  { unfold inFlight. cbn [fold_right heldBy]. rewrite Hstage. lia. }
  rewrite Hsame, Hs, Hin.
  assert (Hsmall : wrap64 (inFlight rest) = inFlight rest).
  { apply wrap64_small. unfold int64. lia. }
  rewrite Hsmall. split; [reflexivity|]. split; [exact Hbound|]. lia.
Qed.

Lemma inflight_counts_requests_witness :
  exists P log,
    exec (service Api []) (boot (service Api [])) slowInFlight = Some (P, log)
    /\ Z.of_nat (length slowInFlight) < 2 ^ 63
    /\ inflight (store P) = 1
    /\ inflight (store P) = inFlight (tasks P).
Proof.
  eexists _, _. split; [vm_compute; reflexivity|].
  assert (H : Z.of_nat (length slowInFlight) < 2 ^ 63) by (vm_compute; reflexivity).
  split; [exact H|]. split; [reflexivity|].
  exact (proj1 (inflight_counts_requests Api [] slowInFlight _ _ eq_refl H)).
Defined.

(** ** What a handler looks at *)

(** X11. The probe calls no address but the peer's: its answer and its
    effect on the store are the same for two requests made at the same
    instant, whatever else differs between them (method, path, headers,
    body), as long as the call to the address in the peer variable followed
    by /healthz has the same outcome; when that variable is empty no
    outcome of any call matters. *)
Theorem probe_calls_only_the_peer (name : ServiceName) (environ : os.Environment)
    (i i' : Inputs) (s : St) :
  let url := os.Getenv environ (peerVariable name) in
  now i = now i' ->
  (String.eqb url "" = false -> get i (url +:+ "/healthz") = get i' (url +:+ "/healthz")) ->
  run (probe (service name environ) i) s = run (probe (service name environ) i') s.
Proof.
  cbn zeta. intros Hnow Hget.
  destruct name; cbn [service probe peerVariable] in *;
    [unfold api.handleProbe | unfold worker.handleProbe];
    rewrite Hnow; destruct (String.eqb _ ""); try reflexivity;
    rewrite (Hget eq_refl); reflexivity.
Qed.

Lemma probe_calls_only_the_peer_witness :
  let environ := ["WORKER_URL=http://worker:9090"] in
  let url := os.Getenv environ (peerVariable Api) in
  let i := reaching "http://worker:9090/healthz" "GET" "/probe" ∅ in
  let i' := {| request := request (sample "POST" "/elsewhere" ∅);
               now := now i;
               intn := 0;
               get := fun _ => http.GetResponse 200 |} in
  (now i = now i'
   /\ (String.eqb url "" = false ->
       get i (url +:+ "/healthz") = get i' (url +:+ "/healthz")))
  /\ run (probe (service Api environ) i) zero = run (probe (service Api environ) i') zero.
Proof.
  cbn zeta.
  assert (H1 : now (reaching "http://worker:9090/healthz" "GET" "/probe" ∅)
               = "2025-01-01T00:00:00Z") by reflexivity.
  assert (H2 : String.eqb (os.Getenv ["WORKER_URL=http://worker:9090"] (peerVariable Api)) ""
               = false ->
               get (reaching "http://worker:9090/healthz" "GET" "/probe" ∅)
                 (os.Getenv ["WORKER_URL=http://worker:9090"] (peerVariable Api) +:+ "/healthz")
               = http.GetResponse 200) by (intros _; reflexivity).
  split; [split; [exact H1 | exact H2]|].
  exact (probe_calls_only_the_peer Api ["WORKER_URL=http://worker:9090"]
           (reaching "http://worker:9090/healthz" "GET" "/probe" ∅)
           {| request := request (sample "POST" "/elsewhere" ∅);
              now := "2025-01-01T00:00:00Z";
              intn := 0;
              get := fun _ => http.GetResponse 200 |}
           zero H1 H2).
Defined.

(** X12. The answer of GET /protected depends on the request through the
    value of its X-Unkey-Principal header only: two requests made at the
    same instant with the same value of that header get the same answer.
    The answer says authenticated only if that value is not empty and is
    valid JSON. *)
Theorem protected_looks_at_the_principal_only (environ : os.Environment)
    (i i' : Inputs) (s s' : St) :
  http.Header_Get (http.Headers (request i)) "X-Unkey-Principal"
  = http.Header_Get (http.Headers (request i')) "X-Unkey-Principal" ->
  now i = now i' ->
  fst (run (api.handleProtected environ i) s) = fst (run (api.handleProtected environ i') s')
  /\ (member "status" (fst (run (api.handleProtected environ i) s)) = Some "authenticated" ->
      http.Header_Get (http.Headers (request i)) "X-Unkey-Principal" <> ""
      /\ json.Valid (http.Header_Get (http.Headers (request i)) "X-Unkey-Principal") = true).
Proof.
  intros Hh Hnow. unfold api.handleProtected. rewrite <- Hh, <- Hnow.
  set (principal := http.Header_Get _ _).
  destruct (String.eqb_spec principal "") as [He|He]; [split; [reflexivity|discriminate]|].
  unfold json.Unmarshal, json.Valid.
  destruct (json.decode principal) as [[| | | | |members]|];
    try (split; [reflexivity|discriminate]).
  - split; [reflexivity|]. intros _. split; [exact He | reflexivity].
  - destruct (json.numbersFit (json.JObject members));
      (split; [reflexivity|]); [intros _; split; [exact He | reflexivity] | discriminate].
Qed.

Lemma protected_looks_at_the_principal_only_witness :
  let headers : http.Header := {["X-Unkey-Principal" := ["{}"]]} in
  let i := sample "GET" "/protected" headers in
  let i' := reaching "http://worker:9090/healthz" "HEAD" "/protected"
              (<["Accept" := ["*/*"]]> headers) in
  (http.Header_Get (http.Headers (request i)) "X-Unkey-Principal"
   = http.Header_Get (http.Headers (request i')) "X-Unkey-Principal"
   /\ now i = now i')
  /\ fst (run (api.handleProtected [] i) zero)
     = fst (run (api.handleProtected [] i')
              {| ready := true; forceFail := true; inflight := 3 |}).
Proof.
  cbn zeta.
  assert (H1 : http.Header_Get
                 (http.Headers (request (sample "GET" "/protected"
                                           {["X-Unkey-Principal" := ["{}"]]})))
                 "X-Unkey-Principal"
               = http.Header_Get
                   (http.Headers
                      (request (reaching "http://worker:9090/healthz" "HEAD" "/protected"
                                  (<["Accept" := ["*/*"]]>
                                     {["X-Unkey-Principal" := ["{}"]]}))))
                   "X-Unkey-Principal") by (vm_compute; reflexivity).
  assert (H2 : now (sample "GET" "/protected" {["X-Unkey-Principal" := ["{}"]]})
               = now (reaching "http://worker:9090/healthz" "HEAD" "/protected"
                        (<["Accept" := ["*/*"]]> {["X-Unkey-Principal" := ["{}"]]})))
    by reflexivity.
  split; [split; [exact H1 | exact H2]|].
  exact (proj1 (protected_looks_at_the_principal_only [] _ _ zero
                  {| ready := true; forceFail := true; inflight := 3 |} H1 H2)).
Defined.

(** ** Health checks during warm-up *)

Lemma next_cold {A : Type} (good : A -> Prop) (p p' : Prog A) (s s' : St)
    (e : atomic.Event) :
  cold good p -> ready s = false -> next p s = Some (e, p', s') -> cold good p'.
Proof.
  destruct p as [a|X op k]; cbn; [discriminate|].
  intros Hk Hready Hnext.
  destruct op; cbn in Hnext; injection Hnext as <- <- <-; apply Hk; cbn; auto.
Qed.

Lemma healthz_cold (name : ServiceName) (environ : os.Environment) (i : Inputs) :
  cold notReady (healthz (service name environ) i).
Proof. destruct name; cbn; intros r ->; reflexivity. Qed.

Section warmup.

Variable name : ServiceName.
Variable environ : os.Environment.

#[local] Abbreviation svc := (service name environ).

Lemma choose_cold (good : shared.Written -> Prop) (P P' : Process) (c : Choice)
    (l : list (nat * atomic.Event)) (n : nat) (p : Prog shared.Written) :
  ready (store P) = false ->
  tasks P !! n = Some (Serving p) -> cold good p ->
  choose svc P c = Some (P', l) ->
  exists p', tasks P' !! n = Some (Serving p') /\ cold good p'.
Proof.
  intros Hready Hn Hp Hc. destruct c as [i|m]; cbn in Hc.
  - injection Hc as <- <-. exists p. split; [|exact Hp].
    cbn. rewrite lookup_app_l; [exact Hn|]. eapply lookup_lt_Some, Hn.
  - destruct (tasks P !! m) as [t|] eqn:Hm; [|discriminate].
    destruct (advance t (store P)) as [[[e t'] s']|] eqn:Hadv; [|discriminate].
    injection Hc as <- <-. cbn.
    destruct (Nat.eq_dec m n) as [->|Hne].
    + rewrite Hn in Hm. injection Hm as <-. cbn in Hadv.
      destruct (next p (store P)) as [[[e' p'] s'']|] eqn:Hnext; [|discriminate].
      injection Hadv as <- <- <-.
      exists p'. split; [|eapply next_cold; eassumption].
      apply list_lookup_insert_eq. eapply lookup_lt_Some, Hn.
    + exists p. split; [|exact Hp].
      rewrite list_lookup_insert_ne by exact Hne. exact Hn.
Qed.

Lemma exec_cold (good : shared.Written -> Prop) (cs : list Choice) :
  forall (k : nat) (P P' : Process) (log : list (nat * atomic.Event)) (n : nat)
         (p : Prog shared.Written),
    Inv name k P ->
    tasks P !! n = Some (Serving p) -> cold good p ->
    exec svc P cs = Some (P', log) ->
    ready (store P') = false ->
    exists p', tasks P' !! n = Some (Serving p') /\ cold good p'.
Proof.
  induction cs as [|c cs IH]; intros k P P' log n p HP Hn Hp Hexec Hcold.
  - cbn in Hexec. injection Hexec as <- <-. eauto.
  - assert (Hready : ready (store P) = false).
    { destruct (exec_inv name environ _ _ _ _ _ HP Hexec) as (k' & Hle & HP' & _).
      rewrite (inv_ready _ _ _ HP). rewrite (inv_ready _ _ _ HP') in Hcold.
      apply Nat.eqb_neq in Hcold. apply Nat.eqb_neq.
      pose proof (inv_stage _ _ _ HP'). lia. }
    cbn in Hexec.
    destruct (choose svc P c) as [[P1 l]|] eqn:Hc; [|discriminate].
    destruct (exec svc P1 cs) as [[P2 log']|] eqn:Hrest; [|discriminate].
    injection Hexec as <- <-.
    destruct (choose_cold good _ _ _ _ _ _ Hready Hn Hp Hc) as (p1 & Hn1 & Hp1).
    destruct (choose_inv name environ _ _ _ _ _ HP Hc) as (k1 & HP1 & _).
    eapply IH; eassumption.
Qed.

End warmup.

(** X13. While a service warms up every health check fails: in every run
    of a process of either service, over every interleaving, a /healthz
    handler that has returned while the readiness flag is still false has
    answered 503 with status not_ready. *)
Theorem warm_up_fails_health_checks (name : ServiceName) (environ : os.Environment)
    (cs cs' : list Choice) (P P' : Process) (log log' : list (nat * atomic.Event))
    (n : nat) (i : Inputs) (w : shared.Written) :
  let svc := service name environ in
  exec svc (boot svc) cs = Some (P, log) ->
  tasks P !! n = Some (Serving (healthz svc i)) ->
  exec svc P cs' = Some (P', log') ->
  ready (store P') = false ->
  tasks P' !! n = Some (Serving (Ret w)) ->
  notReady w.
Proof.
  intros svc Hexec Hn Hexec' Hcold Hn'.
  destruct (exec_inv name environ cs _ _ _ _ (boot_inv name environ) Hexec)
    as (k & _ & HP & _).
  destruct (exec_cold name environ notReady cs' _ _ _ _ _ _ HP Hn
              (healthz_cold name environ i) Hexec' Hcold) as (p' & Hp' & Hgood).
  rewrite Hn' in Hp'. injection Hp' as <-. exact Hgood.
Qed.

Lemma warm_up_fails_health_checks_witness :
  let svc := service Worker [] in
  let i := sample "GET" "/healthz" ∅ in
  exists P P' log log' w,
    (exec svc (boot svc) [Accept i] = Some (P, log)
     /\ tasks P !! 1%nat = Some (Serving (healthz svc i))
     /\ exec svc P [Advance 0; Advance 1] = Some (P', log')
     /\ ready (store P') = false
     /\ tasks P' !! 1%nat = Some (Serving (Ret w)))
    /\ notReady w.
Proof.
  intros svc i.
  pose (P := {| store := zero;
                tasks := [Goroutine (startup svc); Serving (healthz svc i)] |}).
  pose (w := shared.JSON (now i) 503
               {| shared.Service := "worker"; shared.Status := "not_ready";
                  shared.Port := worker.port []; shared.Timestamp := "";
                  shared.Message := "still warming up" |}).
  pose (P' := {| store := zero;
                 tasks := [Goroutine (call (ReadyStore true)); Serving (Ret w)] |}).
  pose (log' := [(0%nat, ESleep (2 * time.Second)); (1%nat, ELoadReady false)]).
  assert (H1 : exec svc (boot svc) [Accept i] = Some (P, [])) by reflexivity.
  assert (H2 : tasks P !! 1%nat = Some (Serving (healthz svc i))) by reflexivity.
  assert (H3 : exec svc P [Advance 0; Advance 1] = Some (P', log')) by reflexivity.
  assert (H4 : ready (store P') = false) by reflexivity.
  assert (H5 : tasks P' !! 1%nat = Some (Serving (Ret w))) by reflexivity.
  exists P, P', [], log', w.
  split; [repeat split; assumption|].
  exact (warm_up_fails_health_checks Worker [] _ _ _ _ _ _ 1%nat i w H1 H2 H3 H4 H5).
Defined.
